(** * WebGIS selection and spatial-query subsystem

    A shallow embedding of the browser script ([script.js]) and of the
    Express/PostGIS service ([server.js]), followed by the properties of the
    selection store, the attribute projector and the query builder. *)

From Stdlib Require Import String Ascii DecimalString DecimalNat DecimalFacts.
From Stdlib Require Import ZArith NArith QArith Bool Lia List.
Import ListNotations.

Set Implicit Arguments.
Close Scope Q_scope.
Open Scope nat_scope.
Set Warnings "-register-all".

(* ================================================================== *)
(** ** JavaScript values                                               *)
(* ================================================================== *)

Module JS.

(** A JavaScript string is a sequence of UTF-16 code units. *)
Definition jsstring := list N.

(** ASCII literals of the source, as code units. *)
Definition js (s : string) : jsstring :=
  map N_of_ascii (list_ascii_of_string s).
Arguments js s%_string.

Definition str_eqb (a b : jsstring) : bool :=
  if list_eq_dec N.eq_dec a b then true else false.

(** [Array.prototype.includes] on an array of strings. *)
Definition includes (l : list jsstring) (k : jsstring) : bool :=
  existsb (str_eqb k) l.

(** [Array.prototype.join] on an array of strings. *)
Fixpoint join (sep : jsstring) (l : list jsstring) : jsstring :=
  match l with
  | [] => []
  | [x] => x
  | x :: rest => x ++ sep ++ join sep rest
  end.

(** Decimal text of a non-negative integer, as template literals and
    [String] print it. *)
Definition decimal (n : nat) : jsstring :=
  js (NilZero.string_of_uint (Nat.to_uint n)).

(** [WhiteSpace] and [LineTerminator] code units: what [String.prototype.trim]
    strips and what [Number] skips around a numeric literal. *)
Definition is_ws (c : N) : bool :=
  (  (9 <=? c) && (c <=? 13)
  || (c =? 32) || (c =? 160) || (c =? 5760)
  || ((8192 <=? c) && (c <=? 8202))
  || (c =? 8232) || (c =? 8233) || (c =? 8239) || (c =? 8287)
  || (c =? 12288) || (c =? 65279))%N.

Fixpoint trim_start (s : jsstring) : jsstring :=
  match s with
  | c :: rest => if is_ws c then trim_start rest else s
  | [] => []
  end.

Definition trim (s : jsstring) : jsstring :=
  rev (trim_start (rev (trim_start s))).

(** [String.prototype.split] with a one-unit separator. *)
Fixpoint split (sep : N) (s : jsstring) : list jsstring :=
  match s with
  | [] => [[]]
  | c :: rest =>
      if (c =? sep)%N then [] :: split sep rest
      else match split sep rest with
           | cur :: more => (c :: cur) :: more
           | [] => [[c]]
           end
  end.

(** Values as [JSON.parse] builds them.  An object lists its own properties in
    enumeration order (the order of [Object.keys]); a number carries the text
    [String] prints for it, the only thing the scripts do with a property
    value besides testing it. *)
Inductive json : Type :=
| JNull
| JBool (b : bool)
| JNum (text : jsstring)
| JStr (s : jsstring)
| JArr (items : list json)
| JObj (entries : list (jsstring * json)).

(** ToBoolean; [None] stands for [undefined]. *)
Definition truthy (v : option json) : bool :=
  match v with
  | None | Some JNull => false
  | Some (JBool b) => b
  | Some (JNum t) => negb (str_eqb t (js "0"))
  | Some (JStr s) => negb (str_eqb s [])
  | Some (JArr _) | Some (JObj _) => true
  end.

(** [String(v)]. *)
Fixpoint String_ (v : json) : jsstring :=
  match v with
  | JNull => js "null"
  | JBool true => js "true"
  | JBool false => js "false"
  | JNum t => t
  | JStr s => s
  | JArr items =>
      (fix elems (l : list json) : jsstring :=
         match l with
         | [] => []
         | x :: rest =>
             (match x with JNull => [] | _ => String_ x end)
               ++ match rest with [] => [] | _ => js "," ++ elems rest end
         end) items
  | JObj _ => js "[object Object]"
  end.

(** Own-property lookup in an object's entries. *)
Fixpoint assoc (k : jsstring) (es : list (jsstring * json)) : option json :=
  match es with
  | [] => None
  | (k', v) :: rest => if str_eqb k k' then Some v else assoc k rest
  end.

(** The array index a property key denotes, if it is a canonical one. *)
Definition digit_of (c : N) : option nat :=
  if ((48 <=? c) && (c <=? 57))%N then Some (N.to_nat (c - 48)) else None.

Fixpoint digits_value (acc : nat) (s : jsstring) : option nat :=
  match s with
  | [] => Some acc
  | c :: rest =>
      match digit_of c with
      | Some d => digits_value (10 * acc + d) rest
      | None => None
      end
  end.

Definition array_index (k : jsstring) : option nat :=
  match k with
  | [] => None
  | [48%N] => Some 0
  | 48%N :: _ => None
  | _ => digits_value 0 k
  end.

(** [v[k]] for a value other than [null], as far as the value's own
    properties answer it: entries of objects, indices and [length] of arrays
    and strings.  [None] is [undefined].  A name the value does not own is
    looked up further in its prototype, which this function leaves out: its
    [None] is the program's [undefined] only for a name that no prototype of
    the value defines (for a plain object, a name outside
    [Client.Object_prototype_names]). *)
Definition get (v : json) (k : jsstring) : option json :=
  match v with
  | JObj es => assoc k es
  | JArr items =>
      if str_eqb k (js "length") then Some (JNum (decimal (length items)))
      else match array_index k with
           | Some i => nth_error items i
           | None => None
           end
  | JStr s =>
      if str_eqb k (js "length") then Some (JNum (decimal (length s)))
      else match array_index k with
           | Some i => option_map (fun c => JStr [c]) (nth_error s i)
           | None => None
           end
  | _ => None
  end.

(** [Object.keys(v)] for a value other than [null]. *)
Definition Object_keys (v : json) : list jsstring :=
  match v with
  | JObj es => map fst es
  | JArr items => map decimal (seq 0 (length items))
  | JStr s => map decimal (seq 0 (length s))
  | _ => []
  end.

End JS.

(* ================================================================== *)
(** ** The browser script: selection store and attribute projector    *)
(* ================================================================== *)

Module Client.
Import JS.

(** *** Leaflet layers *)

Record LatLng := { lat : Q; lng : Q }.

(** [L.LatLngBounds]: south-west and north-east corners. *)
Record LatLngBounds := { sw : LatLng; ne : LatLng }.

(** [bounds.contains(latlng)], inclusive on both axes. *)
Definition contains (b : LatLngBounds) (p : LatLng) : bool :=
  Qle_bool (lat (sw b)) (lat p) && Qle_bool (lat p) (lat (ne b))
  && Qle_bool (lng (sw b)) (lng p) && Qle_bool (lng p) (lng (ne b)).

(** [bounds.intersects(other)]: overlap on both axes. *)
Definition intersects (b o : LatLngBounds) : bool :=
  (Qle_bool (lat (sw b)) (lat (ne o)) && Qle_bool (lat (sw o)) (lat (ne b)))
  && (Qle_bool (lng (sw b)) (lng (ne o)) && Qle_bool (lng (sw o)) (lng (ne b))).

(** Which accessor a layer offers: [getLatLng] (markers), [getBounds]
    (lines, polygons, groups), or neither.  The bounds of a line or group
    without points have no corners: [getBounds_empty]. *)
Inductive accessor :=
| getLatLng (p : LatLng)
| getBounds (b : LatLngBounds)
| getBounds_empty
| no_accessor.

Module Layer.
(** A layer of [geojsonLayer]; [feature] is the object Leaflet attaches to
    it, given by its entries. *)
Record t := { _leaflet_id : N; feature : list (jsstring * json); geometry : accessor }.
End Layer.

Module Entry.
(** A value of the [selected] map: [{ feature, layer }]. *)
Record t := { feature : list (jsstring * json); layer : Layer.t }.
End Entry.

(** *** The [selected] map (a [Map], so insertion order is kept) *)

Definition selection := list (N * Entry.t).

Definition has (m : selection) (lid : N) : bool :=
  existsb (fun p => N.eqb (fst p) lid) m.

Definition delete (m : selection) (lid : N) : selection :=
  filter (fun p => negb (N.eqb (fst p) lid)) m.

Fixpoint set (m : selection) (lid : N) (e : Entry.t) : selection :=
  match m with
  | [] => [(lid, e)]
  | (k, v) :: rest =>
      if N.eqb k lid then (k, e) :: rest else (k, v) :: set rest lid e
  end.

(** *** Globals of the script *)

Record state := {
  layers : list Layer.t;             (* geojsonLayer, in eachLayer order *)
  selected : selection;              (* layerId -> { feature, layer } *)
  allPropertyKeys : list jsstring    (* union of property keys *)
}.

Definition with_selected (st : state) (m : selection) : state :=
  {| layers := layers st; selected := m; allPropertyKeys := allPropertyKeys st |}.

Definition entry_of (l : Layer.t) : Entry.t :=
  {| Entry.feature := Layer.feature l; Entry.layer := l |}.

(** *** Selection (styles are visual only and are left out) *)

Definition toggleSelect (l : Layer.t) (st : state) : state :=
  let lid := Layer._leaflet_id l in
  if has (selected st) lid
  then with_selected st (delete (selected st) lid)
  else with_selected st (set (selected st) lid (entry_of l)).

Definition selectLayer (gLayer : Layer.t) (st : state) : state :=
  let lid := Layer._leaflet_id gLayer in
  if negb (has (selected st) lid)
  then with_selected st (set (selected st) lid (entry_of gLayer))
  else st.

(** [geojsonLayer.eachLayer(f)] *)
Definition eachLayer (f : Layer.t -> state -> state) (st : state) : state :=
  fold_left (fun s l => f l s) (layers st) st.

Definition select_all (st : state) : state := eachLayer selectLayer st.

Definition deselect_all (st : state) : state := with_selected st [].

Definition clear_selection (st : state) : state := with_selected st [].

Inductive outcome := Returned | Threw.

(** The callback of the [L.Draw.Event.CREATED] handler, for one layer.
    [intersects] reads the corners of the bounds it is given and throws when
    there are none. *)
Definition visit (rectBounds : LatLngBounds) (s : state) (gLayer : Layer.t)
  : state * outcome :=
  match Layer.geometry gLayer with
  | getLatLng p =>
      (if contains rectBounds p then selectLayer gLayer s else s, Returned)
  | getBounds b =>
      (if intersects rectBounds b then selectLayer gLayer s else s, Returned)
  | getBounds_empty => (s, Threw)
  | no_accessor => (s, Returned)
  end.

(** [geojsonLayer.eachLayer] with that callback: the pass stops at the first
    layer on which the callback throws. *)
Fixpoint visit_each (rectBounds : LatLngBounds) (ls : list Layer.t) (s : state)
  : state * outcome :=
  match ls with
  | [] => (s, Returned)
  | gLayer :: rest =>
      match visit rectBounds s gLayer with
      | (s', Returned) => visit_each rectBounds rest s'
      | (s', Threw) => (s', Threw)
      end
  end.

(** The [L.Draw.Event.CREATED] handler: the state it leaves, and whether it
    ran to its end. *)
Definition draw_created (rectBounds : LatLngBounds) (st : state) : state * outcome :=
  visit_each rectBounds (layers st) st.

(** The state a rectangle leaves behind, whether the pass ran to its end or
    stopped at a throw. *)
Definition rectangle_select (rectBounds : LatLngBounds) (st : state) : state :=
  fst (draw_created rectBounds st).

(** *** Loading *)

(** [if (!keys.includes(k)) keys.push(k)] *)
Definition push_new (keys : list jsstring) (k : jsstring) : list jsstring :=
  if includes keys k then keys else keys ++ [k].

(** The [forEach] over [obj.features]: a [null] element makes
    [f.properties] throw, with the keys pushed so far left in place. *)
Fixpoint scan_features (fs : list json) (keys : list jsstring)
  : list jsstring * outcome :=
  match fs with
  | [] => (keys, Returned)
  | JNull :: _ => (keys, Threw)
  | f :: rest =>
      let p := get f (js "properties") in
      scan_features rest
        (if truthy p
         then fold_left push_new
                (match p with Some v => Object_keys v | None => [] end) keys
         else keys)
  end.

Section Loading.

(** [geojsonLayer.addData(obj)] belongs to Leaflet: the layers it adds (into
    the group just emptied by [clearLayers]) and whether it threw. *)
Variable addData : json -> list Layer.t * outcome.

Definition loadGeoJSON (obj : json) (st : state) : state * outcome :=
  let (added, o) := addData obj in
  let cleared := {| layers := added; selected := []; allPropertyKeys := [] |} in
  match o, obj with
  | Threw, _ => (cleared, Threw)
  | Returned, JNull => (cleared, Threw)
  | Returned, _ =>
      let features := get obj (js "features") in
      if truthy features
         && truthy (match features with
                    | Some v => get v (js "length") | None => None end)
      then match features with
           | Some (JArr fs) =>
               let (keys, o') := scan_features fs [] in
               ({| layers := added; selected := []; allPropertyKeys := keys |}, o')
           | _ => (cleared, Threw)      (* no forEach to call *)
           end
      else (cleared, Returned)
  end.

(** What the file reader hands over: text [JSON.parse] rejects, or the
    value it builds. *)
Inductive raw_import := Unparsable | Parsed (obj : json).

Inductive notice := Quiet | Alert (msg : jsstring).

(** [reader.onload] of the file input. *)
Definition file_input_onload (raw : raw_import) (st : state) : state * notice :=
  match raw with
  | Unparsable => (st, Alert (js "Invalid GeoJSON file."))
  | Parsed obj =>
      match loadGeoJSON obj st with
      | (st', Returned) => (st', Quiet)
      | (st', Threw) => (st', Alert (js "Invalid GeoJSON file."))
      end
  end.

End Loading.

(** *** Attribute table *)

Definition escapeHtml (s : jsstring) : jsstring :=
  flat_map (fun c =>
    if (c =? 38)%N then js "&amp;"
    else if (c =? 60)%N then js "&lt;"
    else if (c =? 62)%N then js "&gt;"
    else if (c =? 34)%N then js "&quot;"
    else [c]) s.

(** [feature.properties || {}] *)
Definition props_of (feature : list (jsstring * json)) : json :=
  match assoc (js "properties") feature with
  | Some v => if truthy (Some v) then v else JObj []
  | None => JObj []
  end.

(** [props[k] !== undefined ? String(props[k]) : ''], with [props[k]] read
    by [get]: the text of the program's cell wherever [plain_lookup] holds
    (a plain object, and a name it owns or does not inherit).  For a name
    only inherited, such as constructor, the program prints the inherited
    member where this gives the empty text. *)
Definition cell_text (props : json) (k : jsstring) : jsstring :=
  match get props k with
  | Some v => String_ v
  | None => []
  end.

(** The keys of the selected features, pushed onto [keys] in selection
    order (the fallback loop of [updateAttributeTable]). *)
Definition selection_keys (m : selection) (keys : list jsstring) : list jsstring :=
  fold_left
    (fun ks e => fold_left push_new
                   (Object_keys (props_of (Entry.feature (snd e)))) ks)
    m keys.

(** The [keys] of [updateAttributeTable]: a copy of [allPropertyKeys], or,
    when that is empty and something is selected, the keys of the selected
    features. *)
Definition table_keys (st : state) : list jsstring :=
  let keys := allPropertyKeys st in
  if (length keys =? 0) && (0 <? length (selected st))
  then selection_keys (selected st) keys
  else keys.

Definition header_row (keys : list jsstring) : jsstring :=
  js "<tr><th>#</th>"
    ++ fold_left (fun hrow k => hrow ++ js "<th>" ++ k ++ js "</th>") keys []
    ++ js "</tr>".

Definition body_row (keys : list jsstring) (i : nat) (e : Entry.t) : jsstring :=
  let props := props_of (Entry.feature e) in
  fold_left
    (fun row k => row ++ js "<td>" ++ escapeHtml (cell_text props k) ++ js "</td>")
    keys (js "<tr><td>" ++ decimal i ++ js "</td>")
    ++ js "</tr>".

Fixpoint body_rows (keys : list jsstring) (i : nat) (m : selection) : list jsstring :=
  match m with
  | [] => []
  | (_, e) :: rest => body_row keys i e :: body_rows keys (S i) rest
  end.

(** What [updateAttributeTable] leaves in the document (taken to have both
    table elements): the header's [innerHTML] and the rows inserted into the
    body.  Every handler that runs to its end finishes by calling it; one
    that throws leaves the table as it was. *)
Record table := { head : jsstring; body : list jsstring }.

Definition updateAttributeTable (st : state) : table :=
  let keys := table_keys st in
  {| head := header_row keys; body := body_rows keys 1 (selected st) |}.

(** The page: the session and the table last drawn. *)
Record page := { session : state; shown : table }.

(** [reader.onload] on the page.  [loadGeoJSON] draws the table as its last
    statement, so a load that throws leaves the table drawn before. *)
Definition onload_page (addData : json -> list Layer.t * outcome)
  (raw : raw_import) (p : page) : page * notice :=
  match raw with
  | Unparsable => (p, Alert (js "Invalid GeoJSON file."))
  | Parsed obj =>
      match loadGeoJSON addData obj (session p) with
      | (st', Returned) =>
          ({| session := st'; shown := updateAttributeTable st' |}, Quiet)
      | (st', Threw) =>
          ({| session := st'; shown := shown p |}, Alert (js "Invalid GeoJSON file."))
      end
  end.

(** *** CSV export *)

(** The CSV escape: every double quote (unit 34) of [v] doubled, and the
    whole put between double quotes. *)
Definition csv_quote (v : jsstring) : jsstring :=
  [34%N] ++ flat_map (fun c => if (c =? 34)%N then [34%N; 34%N] else [c]) v ++ [34%N].

Definition csv_row (keys : list jsstring) (e : Entry.t) : jsstring :=
  let props := props_of (Entry.feature e) in
  join (js ",") (map (fun k => csv_quote (cell_text props k)) keys).

(** The [rows] array of the export-csv handler; [None] when nothing is
    selected (the handler alerts and returns). *)
Definition export_csv_rows (st : state) : option (list jsstring) :=
  if length (selected st) =? 0 then None
  else
    let keys := allPropertyKeys st in
    Some (join (js ",") keys :: map (fun p => csv_row keys (snd p)) (selected st)).

(** The text of the downloaded file. *)
Definition export_csv (st : state) : option jsstring :=
  option_map (join [10%N]) (export_csv_rows st).

(** *** User actions on the selection *)

Inductive action :=
| Click (l : Layer.t)
| SelectAll
| DeselectAll
| ClearSelection
| DrawRectangle (r : LatLngBounds).

Definition step (st : state) (a : action) : state :=
  match a with
  | Click l => toggleSelect l st
  | SelectAll => select_all st
  | DeselectAll => deselect_all st
  | ClearSelection => clear_selection st
  | DrawRectangle r => rectangle_select r st
  end.

Definition run (acts : list action) (st : state) : state := fold_left step acts st.

(** *** Vocabulary of the properties *)

(** The feature sequence of a collection, and the property names one
    feature shows to the key scan. *)
Definition features_of (obj : json) : list json :=
  match get obj (js "features") with
  | Some (JArr fs) => fs
  | _ => []
  end.

Definition property_names (f : json) : list jsstring :=
  match get f (js "properties") with
  | Some v => if truthy (Some v) then Object_keys v else []
  | None => []
  end.

Definition is_feature_collection (obj : json) : bool :=
  match get obj (js "type"), get obj (js "features") with
  | Some (JStr t), Some (JArr _) => str_eqb t (js "FeatureCollection")
  | _, _ => false
  end.

(** [k1] stands somewhere before [k2] in [l]. *)
Definition stands_before (k1 k2 : jsstring) (l : list jsstring) : Prop :=
  exists a b c, l = a ++ k1 :: b ++ k2 :: c.

(** [k1] occurs in [l], and [k2] does not occur before the first [k1]. *)
Definition first_before (k1 k2 : jsstring) (l : list jsstring) : Prop :=
  exists pre post, l = pre ++ k1 :: post /\ ~ In k1 pre /\ ~ In k2 pre.

(** The layers a rectangle picks. *)
Definition picked (r : LatLngBounds) (l : Layer.t) : bool :=
  match Layer.geometry l with
  | getLatLng p => contains r p
  | getBounds b => intersects r b
  | getBounds_empty => false
  | no_accessor => false
  end.

(** What a visit that returns makes of the state. *)
Definition visited (r : LatLngBounds) (s : state) (l : Layer.t) : state :=
  if picked r l then selectLayer l s else s.

(** The layers a rectangle pass gets to: those before the first one whose
    bounds have no corners. *)
Fixpoint reached (ls : list Layer.t) : list Layer.t :=
  match ls with
  | [] => []
  | l :: rest =>
      match Layer.geometry l with
      | getBounds_empty => []
      | _ => l :: reached rest
      end
  end.




(** What a session keeps true of its selection: no identity twice, every
    entry filed under the id of its own layer with that layer's feature, and
    that layer among those of the group. *)
Definition well_kept (st : state) : Prop :=
  NoDup (map fst (selected st))
  /\ forall lid e, In (lid, e) (selected st) ->
       lid = Layer._leaflet_id (Entry.layer e)
       /\ e = entry_of (Entry.layer e)
       /\ In (Entry.layer e) (layers st).

(** [q] occurs in [s] as a run of consecutive units. *)
Definition occurs_in (q s : jsstring) : Prop :=
  exists pre post, s = pre ++ q ++ post.

(** *** GeoJSON export *)

(** The [fc] object of the export-geojson handler; [None] when nothing is
    selected (the handler alerts and returns). *)
Definition export_geojson (st : state) : option json :=
  if length (selected st) =? 0 then None
  else Some (JObj [ (js "type", JStr (js "FeatureCollection"));
                    (js "features",
                     JArr (map (fun p => JObj (Entry.feature (snd p)))
                               (selected st))) ]).

(** *** Table search *)

Fixpoint starts_with (q s : jsstring) : bool :=
  match q, s with
  | [], _ => true
  | _ :: _, [] => false
  | c :: q', d :: s' => (c =? d)%N && starts_with q' s'
  end.

(** [s.indexOf(q)], counting positions from [i]; -1 when [q] does not occur. *)
Fixpoint indexOf_from (i : Z) (s q : jsstring) : Z :=
  match s with
  | [] => if starts_with q [] then i else (-1)%Z
  | _ :: rest => if starts_with q s then i else indexOf_from (i + 1)%Z rest q
  end.

Definition indexOf (s q : jsstring) : Z := indexOf_from 0%Z s q.

Section Search.

(** The engine's [String.prototype.toLowerCase]. *)
Variable toLowerCase : jsstring -> jsstring.

(** The input handler of the search box: from the box's value and the
    [textContent] of each body row, the [style.display] each row gets. *)
Definition table_search (value : jsstring) (textContents : list jsstring)
  : list jsstring :=
  let q := toLowerCase (trim value) in
  map (fun textContent =>
         let txt := toLowerCase textContent in
         if (0 <=? indexOf txt q)%Z then [] else js "none")
      textContents.

End Search.

(** *** Readers, to state what the written text gives back *)

(** A browser's reading of the four entities [escapeHtml] writes. *)
Fixpoint decode_entities (s : jsstring) : jsstring :=
  match s with
  | [] => []
  | c :: rest =>
      if (c =? 38)%N then
        match rest with
        | 97%N :: 109%N :: 112%N :: 59%N :: tail => 38%N :: decode_entities tail
        | 108%N :: 116%N :: 59%N :: tail => 60%N :: decode_entities tail
        | 103%N :: 116%N :: 59%N :: tail => 62%N :: decode_entities tail
        | 113%N :: 117%N :: 111%N :: 116%N :: 59%N :: tail => 34%N :: decode_entities tail
        | _ => c :: decode_entities rest
        end
      else c :: decode_entities rest
  end.

(** The cells of a table row as a browser finds them: the text from each
    [<td>] up to the next tag. *)
Fixpoint td_cells (inside : option jsstring) (s : jsstring) : list jsstring :=
  match s with
  | [] => []
  | c :: rest =>
      match inside with
      | Some text =>
          if (c =? 60)%N then text :: td_cells None rest
          else td_cells (Some (text ++ [c])) rest
      | None =>
          match s with
          | 60%N :: 116%N :: 100%N :: 62%N :: tail => td_cells (Some []) tail
          | _ => td_cells None rest
          end
      end
  end.

(** A CSV reader: fields end at a comma, records at a line feed, both only
    outside double quotes; inside quotes a doubled quote stands for one. *)
Inductive csv_mode := Plain | Quoted | QuoteSeen.

Fixpoint csv_read (m : csv_mode) (field : jsstring) (record : list jsstring)
  (s : jsstring) : list (list jsstring) :=
  match s with
  | [] => [record ++ [field]]
  | c :: rest =>
      match m with
      | Quoted =>
          if (c =? 34)%N then csv_read QuoteSeen field record rest
          else csv_read Quoted (field ++ [c]) record rest
      | QuoteSeen =>
          if (c =? 34)%N then csv_read Quoted (field ++ [34%N]) record rest
          else if (c =? 44)%N then csv_read Plain [] (record ++ [field]) rest
          else if (c =? 10)%N then (record ++ [field]) :: csv_read Plain [] [] rest
          else csv_read Plain (field ++ [c]) record rest
      | Plain =>
          if (c =? 44)%N then csv_read Plain [] (record ++ [field]) rest
          else if (c =? 10)%N then (record ++ [field]) :: csv_read Plain [] [] rest
          else if (c =? 34)%N && str_eqb field [] then csv_read Quoted [] record rest
          else csv_read Plain (field ++ [c]) record rest
      end
  end.

Definition csv_records (text : jsstring) : list (list jsstring) :=
  csv_read Plain [] [] text.

(** The names every object inherits from [Object.prototype], those of
    older engines included. *)
Definition Object_prototype_names : list jsstring :=
  map js [ "constructor"; "hasOwnProperty"; "isPrototypeOf";
           "propertyIsEnumerable"; "toLocaleString"; "toString"; "valueOf";
           "__proto__"; "__defineGetter__"; "__defineSetter__";
           "__lookupGetter__"; "__lookupSetter__";
           "toSource"; "watch"; "unwatch" ]%string.

(** A value [String] converts as [String_] says.  An object holding an
    entry named toString hides the inherited method, and converting it, or
    an array that holds it, throws. *)
Fixpoint printable (v : json) : bool :=
  match v with
  | JArr items => forallb printable items
  | JObj es => negb (includes (map fst es) (js "toString"))
  | _ => true
  end.

(** A lookup [props[k]] that [cell_text] renders as the program does:
    [props] is a plain object and [k] is either an entry of it, with a
    printable value, or a name it does not inherit. *)
Definition plain_lookup (props : json) (k : jsstring) : bool :=
  match props with
  | JObj es =>
      match assoc k es with
      | Some v => printable v
      | None => negb (includes Object_prototype_names k)
      end
  | _ => false
  end.

(** The text of a property of a feature: that of the entry its properties
    hold under the name, empty when they hold none. *)
Definition property_text (feature : list (jsstring * json)) (k : jsstring)
  : jsstring :=
  match props_of feature with
  | JObj es =>
      match assoc k es with
      | Some v => String_ v
      | None => []
      end
  | _ => []
  end.

(** Every cell of the selected features under [keys] is a plain lookup. *)
Definition plain_cells (keys : list jsstring) (m : selection) : bool :=
  forallb (fun p => forallb (plain_lookup (props_of (Entry.feature (snd p)))) keys) m.

(** A key the unquoted header carries unharmed through the whole file. *)
Definition header_safe (k : jsstring) : Prop :=
  ~ In 34%N k /\ ~ In 44%N k /\ ~ In 10%N k.

End Client.


(* ================================================================== *)
(** ** The service: query builder and aggregation                     *)
(* ================================================================== *)

Module Server.
Import JS.

(** *** Numbers *)

(** A JavaScript number: not-a-number, an infinity, or a finite value. *)
Inductive number :=
| NaN
| Infinity (negative : bool)
| Finite (q : Q).

(** ToBoolean: [NaN] and zero are falsy. *)
Definition num_truthy (x : number) : bool :=
  match x with
  | NaN => false
  | Infinity _ => true
  | Finite q => negb (Qeq_bool q 0)
  end.

(** [x || d] *)
Definition or_else (x d : number) : number := if num_truthy x then x else d.

Definition Math_min (a b : number) : number :=
  match a, b with
  | NaN, _ | _, NaN => NaN
  | Infinity true, _ => a
  | _, Infinity true => b
  | Infinity false, _ => b
  | _, Infinity false => a
  | Finite p, Finite q => if Qle_bool p q then a else b
  end.

Definition Number_isFinite (x : number) : bool :=
  match x with Finite _ => true | _ => false end.

(** [a <= b] on numbers; false as soon as one side is [NaN]. *)
Definition num_leb (a b : number) : bool :=
  match a, b with
  | NaN, _ | _, NaN => false
  | Infinity true, _ => true
  | _, Infinity false => true
  | Infinity false, _ => false
  | _, Infinity true => false
  | Finite p, Finite q => Qle_bool p q
  end.

(** *** Request and query *)

Module Req.
(** [req.query] of a request that gives each parameter at most once and
    without brackets: each is absent or a string.  [Query.t] below is
    [req.query] in general. *)
Record t := { limit : option jsstring; q : option jsstring; bbox : option jsstring }.
End Req.

(** A value bound to a [$n] placeholder. *)
Inductive bound :=
| Text (s : jsstring)
| Num (x : number).

Module Sql.
(** The [sql] template literal, by what fills its holes; [limit] is the
    number whose text the template prints after LIMIT. *)
Record t := { table : jsstring; whereSQL : jsstring; limit : number }.
End Sql.

(** [$${++i}] once [i] has been incremented to [n]. *)
Definition placeholder (n : nat) : jsstring := js "$" ++ decimal n.

Definition ilike_clause (i : nat) : jsstring :=
  js "name ILIKE '%' || " ++ placeholder (i + 1) ++ js " || '%'".

Definition envelope_clause (i : nat) : jsstring :=
  js "ST_Intersects(geom, ST_MakeEnvelope("
    ++ placeholder (i + 1) ++ js ", " ++ placeholder (i + 2) ++ js ", "
    ++ placeholder (i + 3) ++ js ", " ++ placeholder (i + 4) ++ js ", 4326))".

Section Handlers.

(** The engine's string-to-number conversion. *)
Variable Number : jsstring -> number.

(** [Math.min(Number(req.query.limit) || 1000, 10000)] *)
Definition limit_of (req : Req.t) : number :=
  Math_min
    (or_else (match Req.limit req with Some s => Number s | None => NaN end)
             (Finite 1000))
    (Finite 10000).

(** [req.query.q ? String(req.query.q).trim() : null] *)
Definition q_of (req : Req.t) : option jsstring :=
  match Req.q req with
  | Some s => if str_eqb s [] then None else Some (trim s)
  | None => None
  end.

(** [req.query.bbox ? req.query.bbox.split(",").map(Number) : null], the
    parameter being absent or a string; [bbox_line] below has the case in
    which it is neither and [split] cannot be called. *)
Definition bbox_of (req : Req.t) : option (list number) :=
  match Req.bbox req with
  | Some s => if str_eqb s [] then None else Some (map Number (split 44 s))
  | None => None
  end.

(** The two guarded pushes: [where], [params] and the counter [i]. *)
Definition filters (req : Req.t) : list jsstring * list bound :=
  let st0 : list jsstring * list bound * nat := ([], [], 0) in
  let st1 :=
    match q_of req with
    | Some s =>
        if negb (str_eqb s [])
        then let '(where_, params, i) := st0 in
             (where_ ++ [ilike_clause i], params ++ [Text s], i + 1)
        else st0
    | None => st0
    end in
  let st2 :=
    match bbox_of req with
    | Some bbox =>
        if (length bbox =? 4) && forallb Number_isFinite bbox
        then let '(where_, params, i) := st1 in
             (where_ ++ [envelope_clause i],
              params ++ [Num (nth 0 bbox NaN); Num (nth 1 bbox NaN);
                         Num (nth 2 bbox NaN); Num (nth 3 bbox NaN)],
              i + 4)
        else st1
    | None => st1
    end in
  let '(where_, params, _) := st2 in (where_, params).

Definition whereSQL_of (where_ : list jsstring) : jsstring :=
  match where_ with
  | [] => []
  | _ => js "WHERE " ++ join (js " AND ") where_
  end.

Definition build (table : jsstring) (req : Req.t) : Sql.t * list bound :=
  let (where_, params) := filters req in
  ({| Sql.table := table;
      Sql.whereSQL := whereSQL_of where_;
      Sql.limit := limit_of req |}, params).

(** *** The database *)

(** A row, as the query reads it: [ST_AsGeoJSON(geom)::jsonb] and
    [to_jsonb(row)]. *)
Record row := { geom_geojson : json; to_jsonb : list (jsstring * json) }.

(** What the store holds and how it judges a WHERE clause with its bound
    values on a row. *)
Record database := {
  relation : jsstring -> list row;
  satisfies : jsstring -> list bound -> row -> bool
}.

Inductive query_result :=
| Rejected (message : jsstring)
| Rows (rows : list json).

(** The row count PostgreSQL takes from the LIMIT operand: a numeric is
    rounded to the nearest integer, which has to fit a bigint and must not
    be negative, and a bare word is read as a column name. *)
Definition round_half_away (q : Q) : Z :=
  let d := Z.pos (Qden q) in
  if (0 <=? Qnum q)%Z then ((2 * Qnum q + d) / (2 * d))%Z
  else (- ((2 * - Qnum q + d) / (2 * d)))%Z.

Definition unknown_column (name : jsstring) : jsstring :=
  js "column " ++ [34%N] ++ name ++ [34%N] ++ js " does not exist".

Definition pg_limit (x : number) : jsstring + nat :=
  match x with
  | Finite q =>
      let n := round_half_away q in
      if ((n <? - 2 ^ 63) || (2 ^ 63 - 1 <? n))%Z then inl (js "bigint out of range")
      else if (n <? 0)%Z then inl (js "LIMIT must not be negative")
      else inr (Z.to_nat n)
  | Infinity _ => inl (unknown_column (js "infinity"))
  | NaN => inl (unknown_column (js "nan"))
  end.

(** [jsonb_build_object('type','Feature','geometry',..,'properties',..)] *)
Definition feature_of_row (r : row) : json :=
  JObj [ (js "type", JStr (js "Feature"));
         (js "geometry", geom_geojson r);
         (js "properties",
          JObj (filter (fun kv => negb (str_eqb (fst kv) (js "geom")))
                       (to_jsonb r))) ].

(** [jsonb_agg]: SQL NULL over no rows. *)
Definition jsonb_agg (vs : list json) : option json :=
  match vs with
  | [] => None
  | _ => Some (JArr vs)
  end.

Definition COALESCE (v : option json) (d : json) : json :=
  match v with Some x => x | None => d end.

(** [SELECT * FROM table whereSQL]: every row when there is no clause. *)
Definition matching_rows (db : database) (sql : Sql.t) (params : list bound)
  : list row :=
  match Sql.whereSQL sql with
  | [] => relation db (Sql.table sql)
  | clause => filter (satisfies db clause params) (relation db (Sql.table sql))
  end.

(** The statement as a database runs it that is reachable and holds the
    relation with the columns the statement names: the aggregate over the
    limited, filtered sub-select, always one result row, unless the LIMIT
    operand is refused.  What else can make [pool.query] reject is with
    [query_pool] below. *)
Definition pool_query (db : database) (sql : Sql.t) (params : list bound)
  : query_result :=
  match pg_limit (Sql.limit sql) with
  | inl message => Rejected message
  | inr n =>
      let matched := firstn n (matching_rows db sql params) in
      Rows [ JObj [ (js "geojson",
               JObj [ (js "type", JStr (js "FeatureCollection"));
                      (js "features",
                       COALESCE (jsonb_agg (map feature_of_row matched))
                                (JArr [])) ]) ] ]
  end.

(** *** Responses *)

Record response := { status : nat; cache_control : option jsstring; body : json }.

Definition empty_collection : json :=
  JObj [ (js "type", JStr (js "FeatureCollection")); (js "features", JArr []) ].

(** [rows?.[0]?.geojson ?? { type: "FeatureCollection", features: [] }] *)
Definition first_geojson (rows : list json) : json :=
  match rows with
  | r :: _ =>
      match r with
      | JNull => empty_collection
      | _ => match get r (js "geojson") with
             | Some JNull | None => empty_collection
             | Some v => v
             end
      end
  | [] => empty_collection
  end.

Definition handle (table : jsstring) (db : database) (req : Req.t) : response :=
  let (sql, params) := build table req in
  match pool_query db sql params with
  | Rows rows =>
      {| status := 200; cache_control := Some (js "no-store");
         body := first_geojson rows |}
  | Rejected message =>
      {| status := 500; cache_control := None;
         body := JObj [ (js "error", JStr message) ] |}
  end.

Definition blocks := handle (js "public.blocks").
Definition buildings := handle (js "public.buildings").

(** The [bbox] strings on which the guard of the envelope push fails: not
    four comma-separated parts, or a part that [Number] does not convert to
    a finite number.  A blank part converts to 0 and is not one of them. *)
Definition malformed_bbox (s : jsstring) : Prop :=
  length (split 44 s) <> 4
  \/ exists part, In part (split 44 s) /\ Number_isFinite (Number part) = false.

(** No row of the table passes the request's filters. *)
Definition matches_nothing (table : jsstring) (db : database) (req : Req.t) : Prop :=
  matching_rows db (fst (build table req)) (snd (build table req)) = [].

End Handlers.

(** *** The request as Express hands it over *)

(** A parameter of [req.query]: a string, or, for a parameter that is
    repeated or written with brackets, an array or an object.  The handlers
    see an array or object only through its conversion to a primitive,
    which gives a text (the elements joined by commas, or [object Object])
    or throws (an object holding an entry named toString, which hides the
    inherited method, or an array with such an object in it): [Composite]
    records which, [None] being the throw. *)
Inductive qvalue :=
| Str (s : jsstring)
| Composite (text : option jsstring).

Module Query.
Record t := { limit : option qvalue; q : option qvalue; bbox : option qvalue }.
End Query.

(** The pool as the handler meets it: [failure] is what makes [pool.query]
    reject a statement whatever its LIMIT (no connection, a missing relation
    or column, a timeout), and [db] runs the others. *)
Record pool := {
  db : database;
  failure : Sql.t -> list bound -> option jsstring
}.

Definition query_pool (p : pool) (sql : Sql.t) (params : list bound)
  : query_result :=
  match failure p sql params with
  | Some message => Rejected message
  | None => pool_query (db p) sql params
  end.

(** The messages of the two TypeErrors the first three statements can
    throw. *)
Definition conversion_error : jsstring :=
  js "Cannot convert object to primitive value".
Definition split_error : jsstring :=
  js "req.query.bbox.split is not a function".

(** [res.status(500).json({ error: err.message })] *)
Definition error_response (message : jsstring) : response :=
  {| status := 500; cache_control := None;
     body := JObj [ (js "error", JStr message) ] |}.

Section Express.

Variable Number : jsstring -> number.

(** [Math.min(Number(req.query.limit) || 1000, 10000)]; [inl] is the
    message of what the statement throws. *)
Definition limit_line (query : Query.t) : jsstring + number :=
  match Query.limit query with
  | Some (Composite None) => inl conversion_error
  | v =>
      inr (Math_min
             (or_else (match v with
                       | Some (Str s) => Number s
                       | Some (Composite (Some text)) => Number text
                       | _ => NaN
                       end)
                      (Finite 1000))
             (Finite 10000))
  end.

(** [req.query.q ? String(req.query.q).trim() : null]: an array or object
    is truthy whatever its text. *)
Definition q_line (query : Query.t) : jsstring + option jsstring :=
  match Query.q query with
  | None => inr None
  | Some (Str s) => inr (if str_eqb s [] then None else Some (trim s))
  | Some (Composite (Some text)) => inr (Some (trim text))
  | Some (Composite None) => inl conversion_error
  end.

(** [req.query.bbox ? req.query.bbox.split(",").map(Number) : null]: an
    array or object is truthy and has no method [split]. *)
Definition bbox_line (query : Query.t) : jsstring + option (list number) :=
  match Query.bbox query with
  | None => inr None
  | Some (Str s) =>
      inr (if str_eqb s [] then None else Some (map Number (split 44 s)))
  | Some (Composite _) => inl split_error
  end.

(** The two guarded pushes on the values of [q] and [bbox]. *)
Definition pushes (q : option jsstring) (bbox : option (list number))
  : list jsstring * list bound :=
  let st0 : list jsstring * list bound * nat := ([], [], 0) in
  let st1 :=
    match q with
    | Some s =>
        if negb (str_eqb s [])
        then let '(where_, params, i) := st0 in
             (where_ ++ [ilike_clause i], params ++ [Text s], i + 1)
        else st0
    | None => st0
    end in
  let st2 :=
    match bbox with
    | Some bbox =>
        if (length bbox =? 4) && forallb Number_isFinite bbox
        then let '(where_, params, i) := st1 in
             (where_ ++ [envelope_clause i],
              params ++ [Num (nth 0 bbox NaN); Num (nth 1 bbox NaN);
                         Num (nth 2 bbox NaN); Num (nth 3 bbox NaN)],
              i + 4)
        else st1
    | None => st1
    end in
  let '(where_, params, _) := st2 in (where_, params).

(** The [try] block up to [pool.query]: the statement and the values it is
    sent with, or the message of what was thrown on the way. *)
Definition statement (table : jsstring) (query : Query.t)
  : jsstring + Sql.t * list bound :=
  match limit_line query with
  | inl message => inl message
  | inr limit =>
      match q_line query with
      | inl message => inl message
      | inr q =>
          match bbox_line query with
          | inl message => inl message
          | inr bbox =>
              let (where_, params) := pushes q bbox in
              inr ({| Sql.table := table;
                      Sql.whereSQL := whereSQL_of where_;
                      Sql.limit := limit |}, params)
          end
      end
  end.

(** The handler of [/blocks] and [/buildings]: whatever is thrown inside
    the [try] block is answered by the [catch]. *)
Definition respond (table : jsstring) (p : pool) (query : Query.t) : response :=
  match statement table query with
  | inl message => error_response message
  | inr (sql, params) =>
      match query_pool p sql params with
      | Rows rows =>
          {| status := 200; cache_control := Some (js "no-store");
             body := first_geojson rows |}
      | Rejected message => error_response message
      end
  end.

Definition get_blocks := respond (js "public.blocks").
Definition get_buildings := respond (js "public.buildings").

(** A request of strings, as [req.query] holds it, and a database that
    fails no statement for a reason of its own. *)
Definition of_req (req : Req.t) : Query.t :=
  {| Query.limit := option_map Str (Req.limit req);
     Query.q := option_map Str (Req.q req);
     Query.bbox := option_map Str (Req.bbox req) |}.

Definition reachable (d : database) : pool :=
  {| db := d; failure := fun _ _ => None |}.

End Express.

(** *** CORS *)

(** [(process.env.ALLOWED_ORIGINS || "").split(",").map(s => s.trim()).filter(Boolean)] *)
Definition allowedOrigins (ALLOWED_ORIGINS : option jsstring) : list jsstring :=
  filter (fun s => negb (str_eqb s []))
         (map trim (split 44 (match ALLOWED_ORIGINS with Some s => s | None => [] end))).

Inductive cors_decision :=
| Allowed
| Refused (message : jsstring).

(** The [origin] callback given to [cors]; [None] is a request without an
    Origin header. *)
Definition cors_origin (allowed : list jsstring) (origin : option jsstring)
  : cors_decision :=
  match origin with
  | None => Allowed
  | Some o =>
      if str_eqb o [] then Allowed
      else if includes allowed o then Allowed
      else Refused (js "CORS not allowed for origin: " ++ o)
  end.

(** *** A reader for numeric strings

    [Number] applied to a string: the mathematical value of the literal,
    rounded to the nearest double.  The general statements are about any
    conversion; the examples use this one. *)

Definition is_digit (c : N) : bool := ((48 <=? c) && (c <=? 57))%N.

Fixpoint span_digits (s : jsstring) : jsstring * jsstring :=
  match s with
  | c :: rest =>
      if is_digit c
      then let (ds, tail) := span_digits rest in (c :: ds, tail)
      else ([], s)
  | [] => ([], [])
  end.

Definition digits_Z (ds : jsstring) : Z :=
  fold_left (fun acc c => (10 * acc + Z.of_N (c - 48))%Z) ds 0%Z.

(** [m * 10^e] *)
Definition scale (m e : Z) : Q :=
  if (0 <=? e)%Z then Qmake (m * 10 ^ e) 1
  else Qmake m (Z.to_pos (10 ^ (- e))).

(** [m * 2^e] *)
Definition scale2 (m e : Z) : Q :=
  if (0 <=? e)%Z then Qmake (m * 2 ^ e) 1
  else Qmake m (Z.to_pos (2 ^ (- e))).

(** What may follow the mantissa: nothing, or an exponent part. *)
Definition exponent_part (s : jsstring) : option Z :=
  match s with
  | [] => Some 0%Z
  | c :: r =>
      if ((c =? 101) || (c =? 69))%N
      then
        let '(neg, r') :=
          match r with
          | 43%N :: t => (false, t)
          | 45%N :: t => (true, t)
          | _ => (false, r)
          end in
        match span_digits r' with
        | (((_ :: _) as ds), []) => Some (if neg then (- digits_Z ds)%Z else digits_Z ds)
        | _ => None
        end
      else None
  end.

Definition unsigned_decimal (s : jsstring) : option Q :=
  let (ip, r) := span_digits s in
  let (fp, r') :=
    match r with
    | 46%N :: t => span_digits t
    | _ => ([], r)
    end in
  match ip ++ fp with
  | [] => None
  | ds =>
      match exponent_part r' with
      | Some e => Some (scale (digits_Z ds) (e - Z.of_nat (length fp)))
      | None => None
      end
  end.

Definition radix_digit (radix : Z) (c : N) : option Z :=
  let v :=
    if ((48 <=? c) && (c <=? 57))%N then Some (Z.of_N (c - 48))
    else if ((97 <=? c) && (c <=? 102))%N then Some (Z.of_N (c - 87))
    else if ((65 <=? c) && (c <=? 70))%N then Some (Z.of_N (c - 55))
    else None in
  match v with
  | Some d => if (d <? radix)%Z then Some d else None
  | None => None
  end.

Fixpoint radix_value (radix acc : Z) (s : jsstring) : option Z :=
  match s with
  | [] => Some acc
  | c :: rest =>
      match radix_digit radix c with
      | Some d => radix_value radix (radix * acc + d)%Z rest
      | None => None
      end
  end.

(** [0x..], [0o..], [0b..] *)
Definition radix_literal (s : jsstring) : option Z :=
  match s with
  | 48%N :: p :: ((_ :: _) as ds) =>
      if ((p =? 120) || (p =? 88))%N then radix_value 16 0 ds
      else if ((p =? 111) || (p =? 79))%N then radix_value 8 0 ds
      else if ((p =? 98) || (p =? 66))%N then radix_value 2 0 ds
      else None
  | _ => None
  end.

(** The integer part of the binary logarithm of [n / d], for [n] positive. *)
Definition floor_log2 (n : Z) (d : positive) : Z :=
  let k := (Z.log2 n - Z.log2 (Z.pos d))%Z in
  let below :=
    if (0 <=? k)%Z then (n <? Z.pos d * 2 ^ k)%Z
    else (n * 2 ^ (- k) <? Z.pos d)%Z in
  if below then (k - 1)%Z else k.

(** [n / d] rounded to the nearest integer, ties to the even one. *)
Definition round_half_even (n d : Z) : Z :=
  let fl := (n / d)%Z in
  let r := (n mod d)%Z in
  if (2 * r <? d)%Z then fl
  else if (d <? 2 * r)%Z then (fl + 1)%Z
  else if Z.even fl then fl else (fl + 1)%Z.

(** The double nearest to a rational: 53 significant bits, the exponent of
    the last one no lower than -1074, an infinity from 2^1024 on.  A value
    that is a double already is returned as it is. *)
Definition to_double (q : Q) : number :=
  let n := Z.abs (Qnum q) in
  if (n =? 0)%Z then Finite q
  else
    let e := Z.max (floor_log2 n (Qden q) - 52) (- 1074) in
    let m :=
      if (0 <=? e)%Z then round_half_even n (Z.pos (Qden q) * 2 ^ e)
      else round_half_even (n * 2 ^ (- e)) (Z.pos (Qden q)) in
    let negative := (Qnum q <? 0)%Z in
    if (0 <=? e)%Z && (2 ^ 1024 <=? m * 2 ^ e)%Z then Infinity negative
    else
      let v := scale2 (if negative then (- m)%Z else m) e in
      if Qeq_bool v q then Finite q else Finite (Qred v).

Definition StringToNumber (s : jsstring) : number :=
  let t := trim s in
  match t with
  | [] => Finite 0
  | _ =>
      match radix_literal t with
      | Some z => to_double (Qmake z 1)
      | None =>
          let '(neg, u) :=
            match t with
            | 43%N :: r => (false, r)
            | 45%N :: r => (true, r)
            | _ => (false, t)
            end in
          if str_eqb u (js "Infinity") then Infinity neg
          else match unsigned_decimal u with
               | Some q => to_double (if neg then Qopp q else q)
               | None => NaN
               end
      end
  end.

End Server.

(* ================================================================== *)
(** ** Sample documents and sessions                                  *)
(* ================================================================== *)

Module Sample.
Import JS Client.

Definition point (x y : string) : json :=
  JObj [ (js "type", JStr (js "Point"));
         (js "coordinates", JArr [JNum (js x); JNum (js y)]) ].

Definition Feature (geometry : json) (properties : list (jsstring * json))
  : list (jsstring * json) :=
  [ (js "type", JStr (js "Feature"));
    (js "geometry", geometry);
    (js "properties", JObj properties) ].

Definition FeatureCollection (features : list json) : json :=
  JObj [ (js "type", JStr (js "FeatureCollection")); (js "features", JArr features) ].

(** Two point features, [{id:1, city:"X"}] and [{id:2, city:"Y"}]. *)
Definition f1 := Feature (point "1" "1") [ (js "id", JNum (js "1")); (js "city", JStr (js "X")) ].
Definition f2 := Feature (point "5" "5") [ (js "id", JNum (js "2")); (js "city", JStr (js "Y")) ].

Definition cities : json := FeatureCollection [JObj f1; JObj f2].

(** The circle markers Leaflet makes of them. *)
Definition marker1 : Layer.t :=
  {| Layer._leaflet_id := 41; Layer.feature := f1;
     Layer.geometry := getLatLng {| lat := 1; lng := 1 |} |}.
Definition marker2 : Layer.t :=
  {| Layer._leaflet_id := 42; Layer.feature := f2;
     Layer.geometry := getLatLng {| lat := 5; lng := 5 |} |}.

Definition fresh : state := {| layers := []; selected := []; allPropertyKeys := [] |}.

(** The session after loading [cities] and pressing select-all. *)
Definition cities_loaded : state :=
  fst (loadGeoJSON (fun _ => ([marker1; marker2], Returned)) cities fresh).
Definition cities_selected : state := select_all cities_loaded.

(** An object that is no GeoJSON at all; Leaflet refuses it and adds nothing. *)
Definition not_geojson : json := JObj [ (js "foo", JStr (js "bar")) ].
Definition leaflet_refuses : json -> list Layer.t * outcome := fun _ => ([], Threw).

(** A file holding one bare Feature: Leaflet accepts it and adds its marker. *)
Definition lone_feature : json := JObj f1.
Definition lone_loaded : state :=
  fst (loadGeoJSON (fun _ => ([marker1], Returned)) lone_feature fresh).

(** A feature whose property name carries markup. *)
Definition f_markup := Feature (point "1" "1") [ (js "<b>", JStr (js "x<y")) ].
Definition marker_markup : Layer.t :=
  {| Layer._leaflet_id := 43; Layer.feature := f_markup;
     Layer.geometry := getLatLng {| lat := 1; lng := 1 |} |}.
Definition markup_selected : state :=
  toggleSelect marker_markup
    (fst (loadGeoJSON (fun _ => ([marker_markup], Returned))
                      (FeatureCollection [JObj f_markup]) fresh)).

(** A LineString with no coordinates ahead of the first city: Leaflet draws
    it as a line without points, whose bounds have no corners. *)
Definition f_empty_line :=
  Feature (JObj [ (js "type", JStr (js "LineString")); (js "coordinates", JArr []) ])
          [ (js "id", JNum (js "0")) ].
Definition empty_line : Layer.t :=
  {| Layer._leaflet_id := 40; Layer.feature := f_empty_line;
     Layer.geometry := getBounds_empty |}.
Definition line_then_marker : state :=
  fst (loadGeoJSON (fun _ => ([empty_line; marker1], Returned))
                   (FeatureCollection [JObj f_empty_line; JObj f1]) fresh).

(** A rectangle around the first city. *)
Definition around_marker1 : LatLngBounds :=
  {| sw := {| lat := 0; lng := 0 |}; ne := {| lat := 2; lng := 2 |} |}.

(** A store whose tables are empty. *)
Definition empty_store : Server.database :=
  {| Server.relation := fun _ => []; Server.satisfies := fun _ _ _ => false |}.

Definition request (limit q bbox : option string) : Server.Req.t :=
  {| Server.Req.limit := option_map js limit;
     Server.Req.q := option_map js q;
     Server.Req.bbox := option_map js bbox |}.

(** [?bbox=..] alone, the parameter given once. *)
Definition bbox_only (bbox : string) : Server.Query.t :=
  {| Server.Query.limit := None; Server.Query.q := None;
     Server.Query.bbox := Some (Server.Str (js bbox)) |}.

(** [?bbox=1,2&bbox=3,4]: the parser delivers the array ["1,2", "3,4"],
    whose text is 1,2,3,4. *)
Definition bbox_twice : Server.Query.t :=
  {| Server.Query.limit := None; Server.Query.q := None;
     Server.Query.bbox := Some (Server.Composite (Some (js "1,2,3,4"))) |}.

Definition no_parameter : Server.Query.t :=
  {| Server.Query.limit := None; Server.Query.q := None;
     Server.Query.bbox := None |}.

(** A store with one building, a point at (10, 10): it passes an envelope
    clause when the four bound numbers enclose it. *)
Definition hall : Server.row :=
  {| Server.geom_geojson := point "10" "10";
     Server.to_jsonb := [ (js "id", JNum (js "1")); (js "name", JStr (js "Hall")) ] |}.

Definition encloses_hall (params : list Server.bound) : bool :=
  match params with
  | [ Server.Num (Server.Finite x1); Server.Num (Server.Finite y1);
      Server.Num (Server.Finite x2); Server.Num (Server.Finite y2) ] =>
      Qle_bool x1 10 && Qle_bool 10 x2 && Qle_bool y1 10 && Qle_bool 10 y2
  | _ => false
  end.

Definition one_building : Server.pool :=
  Server.reachable
    {| Server.relation :=
         fun t => if str_eqb t (js "public.buildings") then [hall] else [];
       Server.satisfies :=
         fun clause params _ =>
           str_eqb clause (js "WHERE " ++ Server.envelope_clause 0)
           && encloses_hall params |}.

End Sample.

(* ================================================================== *)
(** ** Facts about strings                                            *)
(* ================================================================== *)

Module JSFacts.
Import JS.

Lemma str_eqb_eq a b : str_eqb a b = true <-> a = b.
Proof.
  unfold str_eqb; destruct (list_eq_dec N.eq_dec a b); split; congruence.
Qed.

Lemma str_eqb_neq a b : str_eqb a b = false <-> a <> b.
Proof.
  unfold str_eqb; destruct (list_eq_dec N.eq_dec a b); split; congruence.
Qed.

Lemma str_eqb_refl a : str_eqb a a = true.
Proof. now apply str_eqb_eq. Qed.

Lemma includes_In l k : includes l k = true <-> In k l.
Proof.
  unfold includes; rewrite existsb_exists; split.
  - intros [x [Hx He]]; apply str_eqb_eq in He; now subst.
  - intros H; exists k; split; [assumption | apply str_eqb_refl].
Qed.

Lemma includes_not_In l k : includes l k = false <-> ~ In k l.
Proof.
  rewrite <- includes_In; destruct (includes l k); split; congruence.
Qed.

Lemma js_inj a b : js a = js b -> a = b.
Proof.
  unfold js; intros H.
  rewrite <- (string_of_list_ascii_of_string a), <- (string_of_list_ascii_of_string b).
  f_equal.
  revert H; generalize (list_ascii_of_string a) (list_ascii_of_string b).
  induction l as [| x l IH]; intros [| y l']; simpl; try discriminate; [reflexivity |].
  intros H; injection H as Hxy Hl.
  f_equal; [| now apply IH].
  now rewrite <- (ascii_N_embedding x), <- (ascii_N_embedding y), Hxy.
Qed.

(** Only zero prints as the digit 0. *)
Lemma decimal_zero n : decimal n = js "0" -> n = 0.
Proof.
  unfold decimal; intros H; apply js_inj in H.
  assert (Hn : Nat.to_uint n <> Decimal.Nil).
  { rewrite <- (DecimalNat.Unsigned.of_to n), DecimalNat.Unsigned.to_of.
    apply DecimalFacts.unorm_nonnil. }
  pose proof (NilZero.usu (Nat.to_uint n) Hn) as E.
  rewrite H in E; simpl in E; injection E as E.
  now rewrite <- (DecimalNat.Unsigned.of_to n), <- E.
Qed.

Lemma trim_start_all_ws s :
  Forall (fun c => is_ws c = true) s -> trim_start s = [].
Proof.
  induction 1 as [| c rest Hc _ IH]; simpl; [reflexivity |].
  now rewrite Hc.
Qed.

Lemma trim_all_ws s :
  Forall (fun c => is_ws c = true) s -> trim s = [].
Proof.
  intros H; unfold trim; now rewrite (trim_start_all_ws H).
Qed.

End JSFacts.

(* ================================================================== *)
(** ** Properties of the browser script                               *)
(* ================================================================== *)

Module ClientFacts.
Import JS JSFacts Client.

(** *** The key scan *)

Lemma push_new_spec keys k :
  (In k keys /\ push_new keys k = keys)
  \/ (~ In k keys /\ push_new keys k = keys ++ [k]).
Proof.
  unfold push_new; destruct (includes keys k) eqn:E.
  - left; split; [now apply includes_In | reflexivity].
  - right; split; [now apply includes_not_In | reflexivity].
Qed.

Lemma push_all_In ks : forall keys k,
  In k (fold_left push_new ks keys) <-> In k keys \/ In k ks.
Proof.
  induction ks as [| x ks IH]; intros keys k; simpl.
  - tauto.
  - rewrite IH.
    destruct (push_new_spec keys x) as [[Hin ->] | [Hout ->]].
    + split; [intros [H | H]; auto | intros [H | [-> | H]]; auto].
    + rewrite in_app_iff; simpl; tauto.
Qed.

Lemma push_all_NoDup ks : forall keys,
  NoDup keys -> NoDup (fold_left push_new ks keys).
Proof.
  induction ks as [| x ks IH]; intros keys Hnd; simpl; [assumption |].
  apply IH.
  destruct (push_new_spec keys x) as [[_ ->] | [Hout ->]]; [assumption |].
  apply NoDup_app; [assumption | repeat constructor; simpl; tauto |].
  intros a Ha [<- | []]; contradiction.
Qed.

Lemma stands_before_snoc k1 k2 l x :
  stands_before k1 k2 (l ++ [x]) ->
  stands_before k1 k2 l \/ (In k1 l /\ k2 = x).
Proof.
  intros (a & b & c & E).
  destruct c as [| y c' ] using rev_ind.
  - right.
    assert (E' : l ++ [x] = (a ++ k1 :: b) ++ [k2])
      by (rewrite E, <- app_assoc; reflexivity).
    apply app_inj_tail in E' as [-> ->].
    split; [apply in_elt | reflexivity].
  - clear IHc'. left.
    assert (E' : l ++ [x] = (a ++ k1 :: b ++ k2 :: c') ++ [y]).
    { rewrite E, <- app_assoc; simpl. f_equal. f_equal.
      rewrite <- app_assoc; reflexivity. }
    apply app_inj_tail in E' as [-> _].
    now exists a, b, c'.
Qed.

(** Where two keys of the result can come from: both were there, or the
    first was there and the second is new, or both are new and the scan met
    the first one earlier. *)
Lemma push_all_order ks : forall keys k1 k2,
  stands_before k1 k2 (fold_left push_new ks keys) ->
  stands_before k1 k2 keys
  \/ (In k1 keys /\ ~ In k2 keys /\ In k2 ks)
  \/ (~ In k1 keys /\ ~ In k2 keys /\ first_before k1 k2 ks).
Proof.
  induction ks as [| x ks IH]; intros keys k1 k2 H; simpl in H.
  - now left.
  - apply IH in H.
    destruct (push_new_spec keys x) as [[Hin E] | [Hout E]]; rewrite E in H.
    + destruct H as [H | [(H1 & H2 & H3) | (H1 & H2 & pre & post & -> & P1 & P2)]].
      * now left.
      * right; left; simpl; tauto.
      * right; right; repeat split; try assumption.
        exists (x :: pre), post; simpl; repeat split; try reflexivity.
        -- intros [-> | ?]; contradiction.
        -- intros [-> | ?]; contradiction.
    + destruct H as [H | [(H1 & H2 & H3) | (H1 & H2 & pre & post & -> & P1 & P2)]].
      * apply stands_before_snoc in H as [H | [H ->]]; [now left |].
        right; left; simpl; tauto.
      * rewrite in_app_iff in H1, H2; simpl in H1, H2.
        destruct H1 as [H1 | [<- | []]].
        -- right; left; simpl; tauto.
        -- right; right; repeat split; [assumption | tauto |].
           exists [], ks; simpl; tauto.
      * rewrite in_app_iff in H1, H2; simpl in H1, H2.
        right; right; repeat split; [tauto | tauto |].
        exists (x :: pre), post; simpl; repeat split; try reflexivity.
        -- intros [-> | ?]; tauto.
        -- intros [-> | ?]; tauto.
Qed.

Lemma NoDup_stands_before k1 k2 (l : list jsstring) :
  NoDup l -> stands_before k1 k2 l -> k1 <> k2.
Proof.
  intros Hnd (a & b & c & ->) <-.
  apply NoDup_remove_2 in Hnd.
  apply Hnd; rewrite !in_app_iff; simpl; tauto.
Qed.

(** The scan over the features is the push of every name the features show,
    in sequence order. *)
Lemma scan_features_returned fs : forall keys keys',
  scan_features fs keys = (keys', Returned) ->
  keys' = fold_left push_new (flat_map property_names fs) keys.
Proof.
  induction fs as [| f fs IH]; intros keys keys' H; simpl in H |- *.
  - now inversion H.
  - rewrite fold_left_app.
    assert (Hstep :
      forall g, g = f -> g <> JNull ->
        scan_features fs
          (if truthy (get g (js "properties"))
           then fold_left push_new
                  (match get g (js "properties") with
                   | Some v => Object_keys v | None => [] end) keys
           else keys) = (keys', Returned) ->
        keys' = fold_left push_new (flat_map property_names fs)
                  (fold_left push_new (property_names g) keys)).
    { intros g _ _ Hg. apply IH in Hg. rewrite Hg. f_equal.
      unfold property_names.
      destruct (get g (js "properties")) as [v |]; [| reflexivity].
      destruct (truthy (Some v)); reflexivity. }
    destruct f; try discriminate H;
      (apply Hstep; [reflexivity | discriminate | exact H]).
Qed.

(** A load that returns leaves the pushes of every shown name, in order. *)
Lemma loadGeoJSON_keys addData obj st0 st :
  loadGeoJSON addData obj st0 = (st, Returned) ->
  allPropertyKeys st
  = fold_left push_new (flat_map property_names (features_of obj)) [].
Proof.
  unfold loadGeoJSON, features_of.
  destruct (addData obj) as [added o].
  destruct o; [| intros H; discriminate H].
  assert (Hgen :
    forall features,
      (if truthy features
          && truthy (match features with
                     | Some v => get v (js "length") | None => None end)
       then match features with
            | Some (JArr fs) =>
                let (keys, o') := scan_features fs [] in
                ({| layers := added; selected := []; allPropertyKeys := keys |}, o')
            | _ => ({| layers := added; selected := []; allPropertyKeys := [] |}, Threw)
            end
       else ({| layers := added; selected := []; allPropertyKeys := [] |}, Returned))
      = (st, Returned) ->
      allPropertyKeys st
      = fold_left push_new
          (flat_map property_names
             (match features with Some (JArr fs) => fs | _ => [] end)) []).
  { intros features.
    destruct (truthy features
              && truthy (match features with
                         | Some v => get v (js "length") | None => None end)) eqn:E.
    - destruct features as [[| | | | fs |] |]; try (intros H; discriminate H).
      destruct (scan_features fs []) as [keys o'] eqn:Es.
      intros H; injection H as <- ->; simpl.
      now apply scan_features_returned.
    - intros H; injection H as <-; simpl.
      destruct features as [[| | | | fs |] |]; try reflexivity.
      change (negb (str_eqb (decimal (length fs)) (js "0")) = false) in E.
      destruct (str_eqb (decimal (length fs)) (js "0")) eqn:Ez; [| discriminate E].
      apply str_eqb_eq, decimal_zero in Ez.
      destruct fs; [reflexivity | discriminate Ez]. }
  destruct obj; try (intros H; discriminate H); apply Hgen.
Qed.

(** C5.  After a load that returns, the key union holds every property name
    shown by some feature of the collection, each exactly once, and a name
    stands before another only if the scan of the features, in sequence
    order, met it first. *)
Theorem key_union_first_seen addData obj st0 st :
  loadGeoJSON addData obj st0 = (st, Returned) ->
  let seen := flat_map property_names (features_of obj) in
  NoDup (allPropertyKeys st)
  /\ (forall k, In k (allPropertyKeys st) <-> In k seen)
  /\ (forall k1 k2, stands_before k1 k2 (allPropertyKeys st) ->
                    k1 <> k2 /\ first_before k1 k2 seen).
Proof.
  intros H seen; apply loadGeoJSON_keys in H; fold seen in H; rewrite H.
  assert (Hnd : NoDup (fold_left push_new seen [])) by (apply push_all_NoDup; constructor).
  split; [exact Hnd | split].
  - intros k; rewrite push_all_In; simpl; tauto.
  - intros k1 k2 Hb; split; [eapply NoDup_stands_before; eassumption |].
    apply push_all_order in Hb as [(a & b & c & E) | [([] & _) | (_ & _ & Hf)]];
      [destruct a; discriminate E | exact Hf].
Qed.

(** The documented scenario: [{id:1, city:X}], [{id:2, city:Y}] gives the
    key union [id, city]. *)
Lemma key_union_first_seen_cities :
  allPropertyKeys Sample.cities_loaded = [js "id"; js "city"]
  /\ NoDup (allPropertyKeys Sample.cities_loaded)
  /\ (stands_before (js "id") (js "city") (allPropertyKeys Sample.cities_loaded) ->
      first_before (js "id") (js "city")
        (flat_map property_names (features_of Sample.cities))).
Proof.
  pose proof (@key_union_first_seen
                (fun _ => ([Sample.marker1; Sample.marker2], Returned))
                Sample.cities Sample.fresh Sample.cities_loaded eq_refl)
    as (Hnd & _ & Hord).
  split; [reflexivity | split; [exact Hnd |]].
  intros Hb; exact (proj2 (Hord _ _ Hb)).
Defined.

(** *** The selection map *)

Lemma set_absent m : forall lid e,
  has m lid = false -> set m lid e = m ++ [(lid, e)].
Proof.
  induction m as [| [k v] m IH]; intros lid e H; simpl in *; [reflexivity |].
  destruct (N.eqb k lid); [discriminate H |].
  simpl in H; now rewrite IH.
Qed.

Lemma has_app m1 m2 lid : has (m1 ++ m2) lid = has m1 lid || has m2 lid.
Proof. unfold has; apply existsb_app. Qed.

Lemma selectLayer_spec l st :
  (has (selected st) (Layer._leaflet_id l) = true /\ selectLayer l st = st)
  \/ (has (selected st) (Layer._leaflet_id l) = false
      /\ selectLayer l st
         = with_selected st (selected st ++ [(Layer._leaflet_id l, entry_of l)])).
Proof.
  unfold selectLayer.
  destruct (has (selected st) (Layer._leaflet_id l)) eqn:E; simpl.
  - now left.
  - right; split; [reflexivity |]. now rewrite set_absent.
Qed.

Lemma selectLayer_has l st : has (selected (selectLayer l st)) (Layer._leaflet_id l) = true.
Proof.
  destruct (selectLayer_spec l st) as [[H ->] | [_ ->]]; [assumption |].
  simpl; rewrite has_app; simpl. rewrite N.eqb_refl. apply orb_true_r.
Qed.

Lemma visit_visited r s l :
  Layer.geometry l <> getBounds_empty -> visit r s l = (visited r s l, Returned).
Proof.
  unfold visit, visited, picked; destruct (Layer.geometry l); congruence.
Qed.

(** A pass is the run of the visits over the layers it gets to. *)
Lemma visit_each_reached r ls : forall s,
  fst (visit_each r ls s) = fold_left (visited r) (reached ls) s.
Proof.
  induction ls as [| l ls IH]; intros s; [reflexivity |].
  cbn [visit_each reached].
  destruct (Layer.geometry l) eqn:E;
    try (rewrite visit_visited by congruence; cbn [fold_left]; apply IH).
  unfold visit; rewrite E; reflexivity.
Qed.

Lemma reached_incl ls l : In l (reached ls) -> In l ls.
Proof.
  induction ls as [| x ls IH]; simpl; [tauto |].
  destruct (Layer.geometry x); simpl; tauto.
Qed.

Lemma rectangle_select_fold r st :
  rectangle_select r st = fold_left (visited r) (reached (layers st)) st.
Proof. apply visit_each_reached. Qed.

Lemma visit_spec r s l :
  visited r s l = s \/ visited r s l = selectLayer l s.
Proof. unfold visited; destruct (picked r l); auto. Qed.

(** A visit only appends, and leaves layers and keys alone. *)
Lemma visit_extends r s l :
  layers (visited r s l) = layers s
  /\ allPropertyKeys (visited r s l) = allPropertyKeys s
  /\ exists added, selected (visited r s l) = selected s ++ added.
Proof.
  destruct (visit_spec r s l) as [-> | ->].
  - repeat split; exists []; now rewrite app_nil_r.
  - destruct (selectLayer_spec l s) as [[_ ->] | [_ ->]]; simpl.
    + repeat split; exists []; now rewrite app_nil_r.
    + repeat split; eexists; reflexivity.
Qed.

Lemma visits_extend r ls : forall s,
  layers (fold_left (visited r) ls s) = layers s
  /\ allPropertyKeys (fold_left (visited r) ls s) = allPropertyKeys s
  /\ exists added, selected (fold_left (visited r) ls s) = selected s ++ added.
Proof.
  induction ls as [| l ls IH]; intros s; simpl.
  - repeat split; exists []; now rewrite app_nil_r.
  - destruct (IH (visited r s l)) as (H1 & H2 & a2 & H3).
    destruct (visit_extends r s l) as (G1 & G2 & a1 & G3).
    repeat split; [congruence | congruence |].
    exists (a1 ++ a2); now rewrite H3, G3, app_assoc.
Qed.

Lemma visit_picked r s l :
  visited r s l = if picked r l then selectLayer l s else s.
Proof. reflexivity. Qed.

Lemma visits_keep_has r ls : forall s lid,
  has (selected s) lid = true ->
  has (selected (fold_left (visited r) ls s)) lid = true.
Proof.
  intros s lid H.
  destruct (visits_extend r ls s) as (_ & _ & added & ->).
  rewrite has_app, H; reflexivity.
Qed.

Lemma visits_cover r ls : forall s l,
  In l ls -> picked r l = true ->
  has (selected (fold_left (visited r) ls s)) (Layer._leaflet_id l) = true.
Proof.
  induction ls as [| x ls IH]; intros s l Hin Hp; simpl in *; [contradiction |].
  destruct Hin as [-> | Hin].
  - apply visits_keep_has. rewrite visit_picked, Hp. apply selectLayer_has.
  - now apply IH.
Qed.

Lemma visits_fixed r ls : forall s,
  (forall l, In l ls -> picked r l = true ->
             has (selected s) (Layer._leaflet_id l) = true) ->
  fold_left (visited r) ls s = s.
Proof.
  induction ls as [| x ls IH]; intros s H; simpl; [reflexivity |].
  assert (E : visited r s x = s).
  { rewrite visit_picked. destruct (picked r x) eqn:Hp; [| reflexivity].
    destruct (selectLayer_spec x s) as [[_ ->] | [Hn _]]; [reflexivity |].
    rewrite (H x (or_introl eq_refl) Hp) in Hn; discriminate Hn. }
  rewrite E. apply IH. intros l Hl; apply H; now right.
Qed.

(** C6.  Rectangle selection only appends to the selection, so every
    identity selected before is still selected after it, and drawing the same
    rectangle a second time changes nothing. *)
Theorem rectangle_select_monotone_idempotent (r : LatLngBounds) (st : state) :
  (exists added, selected (rectangle_select r st) = selected st ++ added)
  /\ (forall lid, has (selected st) lid = true ->
                  has (selected (rectangle_select r st)) lid = true)
  /\ rectangle_select r (rectangle_select r st) = rectangle_select r st.
Proof.
  rewrite !rectangle_select_fold.
  destruct (visits_extend r (reached (layers st)) st) as (Hl & _ & Hadd).
  split; [exact Hadd | split].
  - intros lid; apply visits_keep_has.
  - rewrite Hl. apply visits_fixed.
    intros l Hin Hp; now apply visits_cover.
Qed.

(** *** The key union across selection changes *)

Lemma selectLayer_keeps l st :
  layers (selectLayer l st) = layers st
  /\ allPropertyKeys (selectLayer l st) = allPropertyKeys st.
Proof.
  destruct (selectLayer_spec l st) as [[_ ->] | [_ ->]]; split; reflexivity.
Qed.

Lemma select_all_keeps st :
  layers (select_all st) = layers st
  /\ allPropertyKeys (select_all st) = allPropertyKeys st.
Proof.
  unfold select_all, eachLayer.
  generalize (layers st) at 1 3; intros ls; revert st.
  induction ls as [| l ls IH]; intros st; simpl; [split; reflexivity |].
  destruct (IH (selectLayer l st)) as [H1 H2].
  destruct (selectLayer_keeps l st) as [G1 G2].
  split; congruence.
Qed.

Lemma step_keeps st a :
  layers (step st a) = layers st
  /\ allPropertyKeys (step st a) = allPropertyKeys st.
Proof.
  destruct a as [l | | | | r]; simpl.
  - unfold toggleSelect; destruct (has _ _); split; reflexivity.
  - apply select_all_keeps.
  - split; reflexivity.
  - split; reflexivity.
  - rewrite rectangle_select_fold.
    destruct (visits_extend r (reached (layers st)) st) as (H1 & H2 & _); now split.
Qed.

Lemma run_keeps acts : forall st,
  layers (run acts st) = layers st
  /\ allPropertyKeys (run acts st) = allPropertyKeys st.
Proof.
  unfold run; induction acts as [| a acts IH]; intros st; simpl; [split; reflexivity |].
  destruct (IH (step st a)) as [H1 H2], (step_keeps st a) as [G1 G2].
  split; congruence.
Qed.

Lemma table_keys_nonempty st :
  allPropertyKeys st <> [] -> table_keys st = allPropertyKeys st.
Proof.
  unfold table_keys; destruct (allPropertyKeys st); [congruence | reflexivity].
Qed.

Lemma table_keys_fallback st :
  allPropertyKeys st = [] -> table_keys st = selection_keys (selected st) [].
Proof.
  unfold table_keys; intros ->; simpl.
  destruct (selected st); reflexivity.
Qed.

(** C3 (as amended).  Selection changes never touch [allPropertyKeys]: after
    any sequence of clicks, select-all, deselect-all, clear and rectangle
    selections it is still the union computed by the load, and the CSV header
    is made of it.  The attribute table uses the same list whenever it is
    not empty; when the load left it empty, the table takes its columns from
    the features selected at that moment. *)
Theorem key_union_survives_selection
  (addData : json -> list Layer.t * outcome) (obj : json) (st0 : state)
  (acts : list action) :
  let loaded := fst (loadGeoJSON addData obj st0) in
  let st := run acts loaded in
  allPropertyKeys st = allPropertyKeys loaded
  /\ (forall rows, export_csv_rows st = Some rows ->
                   hd [] rows = join (js ",") (allPropertyKeys loaded))
  /\ (allPropertyKeys loaded <> [] -> table_keys st = allPropertyKeys loaded)
  /\ (allPropertyKeys loaded = [] ->
      table_keys st = selection_keys (selected st) []).
Proof.
  intros loaded st.
  destruct (run_keeps acts loaded) as [_ Hk]; fold st in Hk.
  split; [exact Hk | split; [| split]].
  - unfold export_csv_rows; intros rows.
    destruct (length (selected st) =? 0); [discriminate |].
    intros H; injection H as <-; simpl. now rewrite Hk.
  - intros Hne. rewrite <- Hk. apply table_keys_nonempty. now rewrite Hk.
  - intros He. apply table_keys_fallback. now rewrite Hk.
Qed.

(** C3, the case the claim misses: a file holding one bare Feature loads
    with an empty key union, and the table's columns then follow the
    selection. *)
Lemma table_keys_follow_selection :
  allPropertyKeys Sample.lone_loaded = []
  /\ table_keys (run [Click Sample.marker1] Sample.lone_loaded) = [js "id"; js "city"]
  /\ table_keys (run [Click Sample.marker1] Sample.lone_loaded)
     <> allPropertyKeys Sample.lone_loaded.
Proof. repeat split; discriminate. Qed.

(** *** Imports *)

Lemma scan_features_subset fs : forall keys keys' o k,
  scan_features fs keys = (keys', o) ->
  In k keys' -> In k keys \/ In k (flat_map property_names fs).
Proof.
  induction fs as [| f fs IH]; intros keys keys' o k H Hin; simpl in H.
  - injection H as <- _; now left.
  - assert (Hstep :
      forall acc, scan_features fs acc = (keys', o) ->
        (forall x, In x acc -> In x keys \/ In x (property_names f)) ->
        In k keys \/ In k (flat_map property_names (f :: fs))).
    { intros acc Hs Hacc; simpl; rewrite in_app_iff.
      destruct (IH _ _ _ k Hs Hin) as [H1 | H1]; [| tauto].
      destruct (Hacc _ H1); tauto. }
    assert (Hacc :
      forall x,
        In x (if truthy (get f (js "properties"))
              then fold_left push_new
                     (match get f (js "properties") with
                      | Some v => Object_keys v | None => [] end) keys
              else keys) ->
        In x keys \/ In x (property_names f)).
    { intros x; unfold property_names.
      destruct (get f (js "properties")) as [v |]; [| simpl; tauto].
      destruct (truthy (Some v)); [| tauto].
      now rewrite push_all_In. }
    destruct f; try (injection H as <- _; now left);
      (eapply Hstep; [exact H | exact Hacc]).
Qed.

Lemma loadGeoJSON_clears addData obj st :
  layers (fst (loadGeoJSON addData obj st)) = fst (addData obj)
  /\ selected (fst (loadGeoJSON addData obj st)) = []
  /\ (forall k, In k (allPropertyKeys (fst (loadGeoJSON addData obj st))) ->
                In k (flat_map property_names (features_of obj))).
Proof.
  unfold loadGeoJSON, features_of.
  destruct (addData obj) as [added o]; simpl.
  destruct o; [| repeat split; intros k []].
  assert (Hgen :
    forall features r,
      r = (if truthy features
              && truthy (match features with
                         | Some v => get v (js "length") | None => None end)
           then match features with
                | Some (JArr fs) =>
                    let (keys, o') := scan_features fs [] in
                    ({| layers := added; selected := []; allPropertyKeys := keys |}, o')
                | _ => ({| layers := added; selected := []; allPropertyKeys := [] |}, Threw)
                end
           else ({| layers := added; selected := []; allPropertyKeys := [] |}, Returned)) ->
      layers (fst r) = added /\ selected (fst r) = []
      /\ (forall k, In k (allPropertyKeys (fst r)) ->
             In k (flat_map property_names
                     (match features with Some (JArr fs) => fs | _ => [] end)))).
  { intros features r ->.
    destruct (truthy features && _); [| repeat split; intros k []].
    destruct features as [[| | | | fs |] |]; try (repeat split; intros k []).
    destruct (scan_features fs []) as [keys o'] eqn:Es; simpl.
    repeat split. intros k Hin.
    destruct (scan_features_subset _ _ k Es Hin) as [[] | H]; exact H. }
  destruct obj; try (repeat split; intros k []); now apply Hgen.
Qed.

(** What an import leaves.  Text that [JSON.parse] rejects is answered with
    the notice before anything is touched.  A value that parses reaches
    [loadGeoJSON], whose first three statements discard the session: the
    layers are then those Leaflet added for the new value, nothing is
    selected, and the keys are among those of the new value. *)
Lemma unparsable_import_leaves_state
  (addData : json -> list Layer.t * outcome) (st : state) :
  file_input_onload addData Unparsable st = (st, Alert (js "Invalid GeoJSON file."))
  /\ (forall obj,
        let st' := fst (file_input_onload addData (Parsed obj) st) in
        layers st' = fst (addData obj)
        /\ selected st' = []
        /\ (forall k, In k (allPropertyKeys st') ->
                      In k (flat_map property_names (features_of obj)))).
Proof.
  split; [reflexivity |].
  intros obj; simpl.
  pose proof (loadGeoJSON_clears addData obj st) as H.
  destruct (loadGeoJSON addData obj st) as [st' [|]]; exact H.
Qed.

(** C1, at the failing input: the two cities are loaded and selected, and a
    file holding [{"foo":"bar"}] is imported.  The object is no
    FeatureCollection and Leaflet refuses it, so the handler shows its
    notice; but the load had cleared the group, the selection and the key
    union before it met the error, so the session the import was to leave
    untouched is gone.  The table is not drawn again on that path and goes
    on showing the two rows of a selection that no longer exists. *)
Theorem wrong_shape_clears_session :
  is_feature_collection Sample.not_geojson = false
  /\ file_input_onload Sample.leaflet_refuses (Parsed Sample.not_geojson)
       Sample.cities_selected
     = (Sample.fresh, Alert (js "Invalid GeoJSON file."))
  /\ Sample.fresh <> Sample.cities_selected
  /\ onload_page Sample.leaflet_refuses (Parsed Sample.not_geojson)
       {| session := Sample.cities_selected;
          shown := updateAttributeTable Sample.cities_selected |}
     = ({| session := Sample.fresh;
           shown := {| head := js "<tr><th>#</th><th>id</th><th>city</th></tr>";
                       body := [ js "<tr><td>1</td><td>1</td><td>X</td></tr>";
                                 js "<tr><td>2</td><td>2</td><td>Y</td></tr>" ] |} |},
        Alert (js "Invalid GeoJSON file."))
  /\ updateAttributeTable Sample.fresh
     = {| head := js "<tr><th>#</th></tr>"; body := [] |}.
Proof. repeat split; discriminate. Qed.

(** *** CSV export *)











(** *** The attribute table *)

Lemma fold_left_append (A : Type) (f : A -> jsstring) (l : list A) : forall acc,
  fold_left (fun row x => row ++ f x) l acc = acc ++ concat (map f l).
Proof.
  induction l as [| x l IH]; intros acc; simpl.
  - now rewrite app_nil_r.
  - now rewrite IH, app_assoc.
Qed.

(** The header line puts each key between its tags as it is. *)
Lemma header_row_cells keys :
  header_row keys
  = js "<tr><th>#</th>"
      ++ concat (map (fun k => js "<th>" ++ k ++ js "</th>") keys)
      ++ js "</tr>".
Proof.
  unfold header_row.
  now rewrite (fold_left_append (fun k => js "<th>" ++ k ++ js "</th>")).
Qed.

(** A body line puts the escaped text of each cell between its tags. *)
Lemma body_row_cells keys i e :
  body_row keys i e
  = (js "<tr><td>" ++ decimal i ++ js "</td>")
      ++ concat (map (fun k => js "<td>"
                                 ++ escapeHtml (cell_text (props_of (Entry.feature e)) k)
                                 ++ js "</td>") keys)
      ++ js "</tr>".
Proof.
  unfold body_row.
  rewrite (fold_left_append
             (fun k => js "<td>"
                         ++ escapeHtml (cell_text (props_of (Entry.feature e)) k)
                         ++ js "</td>")).
  now rewrite <- app_assoc.
Qed.

(** Escaped text holds no angle bracket and no double quote. *)
Lemma escapeHtml_safe s :
  Forall (fun c => c <> 60%N /\ c <> 62%N /\ c <> 34%N) (escapeHtml s).
Proof.
  unfold escapeHtml; induction s as [| c s IH]; simpl; [constructor |].
  apply Forall_app; split; [| exact IH].
  destruct (c =? 38)%N eqn:E1; [repeat constructor; discriminate |].
  destruct (c =? 60)%N eqn:E2; [repeat constructor; discriminate |].
  destruct (c =? 62)%N eqn:E3; [repeat constructor; discriminate |].
  destruct (c =? 34)%N eqn:E4; [repeat constructor; discriminate |].
  apply N.eqb_neq in E2, E3, E4. repeat constructor; assumption.
Qed.

(** A property the feature lacks, under a name it does not inherit either,
    gives an empty cell. *)
Lemma absent_cell_empty props k :
  plain_lookup props k = true ->
  get props k = None -> escapeHtml (cell_text props k) = [].
Proof. unfold cell_text; now intros _ ->. Qed.

(** C9, at the failing input: the one selected feature has a property named
    [<b>] with the value [x<y].  The body cell is escaped, the header cell
    carries the markup of the name untouched. *)
Theorem header_cells_not_escaped :
  head (updateAttributeTable Sample.markup_selected)
  = js "<tr><th>#</th><th><b></th></tr>"
  /\ body (updateAttributeTable Sample.markup_selected)
     = [ js "<tr><td>1</td><td>x&lt;y</td></tr>" ]
  /\ escapeHtml (js "<b>") = js "&lt;b&gt;".
Proof. repeat split. Qed.

End ClientFacts.

(* ================================================================== *)
(** ** Properties of the service                                      *)
(* ================================================================== *)

Module ServerFacts.
Import JS JSFacts Server.

(** *** The row limit *)

Section Limit.

Variable Number : jsstring -> number.

Lemma limit_of_cases req :
  limit_of Number req = Finite 1000
  \/ limit_of Number req = Finite 10000
  \/ limit_of Number req = Infinity true
  \/ exists q, limit_of Number req = Finite q /\ Qle_bool q 10000 = true
               /\ Req.limit req <> None.
Proof.
  unfold limit_of, or_else.
  destruct (Req.limit req) as [s |]; [| now left].
  destruct (Number s) as [| [|] | q]; simpl; auto.
  destruct (Qeq_bool q 0); simpl; auto.
  destruct (Qle_bool q 10000) eqn:E; auto.
  right; right; right; exists q; repeat split; [assumption | discriminate].
Qed.

(** The cap holds for every value of the parameter. *)
Lemma limit_at_most_10000 req :
  num_leb (limit_of Number req) (Finite 10000) = true.
Proof.
  destruct (limit_of_cases req) as [-> | [-> | [-> | (q & -> & H & _)]]];
    try reflexivity; exact H.
Qed.

(** Absent, not a number, or zero: the default. *)
Lemma limit_default req :
  match Req.limit req with
  | None => True
  | Some s => Number s = NaN \/ exists q, Number s = Finite q /\ Qeq_bool q 0 = true
  end ->
  limit_of Number req = Finite 1000.
Proof.
  unfold limit_of, or_else.
  destruct (Req.limit req) as [s |]; [| reflexivity].
  intros [-> | (q & -> & H)]; simpl; [reflexivity | now rewrite H].
Qed.

End Limit.

(** C2, at the failing input [limit=-5]: the value is a number and is not
    zero, so it is kept; the smaller of it and 10000 is itself; the query
    is built with LIMIT -5, which is below 1. *)
Theorem negative_limit_not_clamped :
  limit_of StringToNumber (Sample.request (Some "-5") None None)%string
  = Finite (Qmake (-5) 1)
  /\ num_leb (Finite 1) (Finite (Qmake (-5) 1)) = false
  /\ Sql.limit (fst (build StringToNumber (js "public.buildings")
                       (Sample.request (Some "-5") None None)%string))
     = Finite (Qmake (-5) 1).
Proof. repeat split. Qed.

(** *** Filters *)

Section Filters.

Variable Number : jsstring -> number.

Lemma filters_bbox_ignored l q (s : jsstring) :
  malformed_bbox Number s ->
  filters Number {| Req.limit := l; Req.q := q; Req.bbox := Some s |}
  = filters Number {| Req.limit := l; Req.q := q; Req.bbox := None |}.
Proof.
  intros Hbad; unfold filters, bbox_of; simpl.
  destruct (str_eqb s []); [reflexivity |].
  assert (E : (length (map Number (split 44 s)) =? 4)
              && forallb Number_isFinite (map Number (split 44 s)) = false).
  { destruct Hbad as [Hlen | (part & Hin & Hnf)].
    - rewrite length_map. apply Nat.eqb_neq in Hlen. now rewrite Hlen.
    - apply andb_false_iff; right.
      apply not_true_is_false; intros Hall.
      rewrite forallb_forall in Hall.
      rewrite (Hall (Number part) (in_map Number _ _ Hin)) in Hnf; discriminate Hnf. }
  now rewrite E.
Qed.

Lemma filters_without_bbox l q :
  let f := filters Number {| Req.limit := l; Req.q := q; Req.bbox := None |} in
  (forall clause, In clause (fst f) -> clause = ilike_clause 0)
  /\ (forall p, In p (snd f) -> exists text, p = Text text).
Proof.
  unfold filters, bbox_of; simpl.
  destruct (q_of _) as [t |]; simpl.
  - destruct (negb (str_eqb t [])); simpl; split.
    + intros c [<- | []]; reflexivity.
    + intros p [<- | []]; eauto.
    + intros c [].
    + intros p [].
  - split; [intros c [] | intros p []].
Qed.



Lemma handle_by_build table db r1 r2 :
  build Number table r1 = build Number table r2 ->
  handle Number table db r1 = handle Number table db r2.
Proof. unfold handle; now intros ->. Qed.

Lemma build_by_filters table r1 r2 :
  filters Number r1 = filters Number r2 ->
  Req.limit r1 = Req.limit r2 ->
  build Number table r1 = build Number table r2.
Proof.
  unfold build, limit_of; intros -> ->; reflexivity.
Qed.

End Filters.

(** Where the guard fails on a [bbox] string, no clause is added and nothing
    is bound: the query, its bound values and the response are those of the
    same request without [bbox], whose only possible clause is the one on
    the name. *)
Lemma malformed_bbox_ignored
  (Number : jsstring -> number) (table : jsstring) (db : database)
  (limit q : option jsstring) (s : jsstring) :
  malformed_bbox Number s ->
  let given := {| Req.limit := limit; Req.q := q; Req.bbox := Some s |} in
  let without := {| Req.limit := limit; Req.q := q; Req.bbox := None |} in
  build Number table given = build Number table without
  /\ handle Number table db given = handle Number table db without
  /\ (forall clause, In clause (fst (filters Number given)) -> clause = ilike_clause 0)
  /\ (forall p, In p (snd (filters Number given)) -> exists text, p = Text text).
Proof.
  intros Hbad given without.
  pose proof (filters_bbox_ignored limit q Hbad) as Hf.
  assert (Hb : build Number table given = build Number table without)
    by (apply build_by_filters; [exact Hf | reflexivity]).
  split; [exact Hb | split; [now apply handle_by_build |]].
  unfold given; rewrite Hf. apply filters_without_bbox.
Qed.

(** Three numbers are one too few: [/buildings?bbox=1,2,3] is answered like
    [/buildings]. *)
Lemma malformed_bbox_ignored_three_parts :
  malformed_bbox StringToNumber (js "1,2,3")
  /\ buildings StringToNumber Sample.empty_store
       (Sample.request None None (Some "1,2,3"))%string
     = buildings StringToNumber Sample.empty_store (Sample.request None None None).
Proof.
  assert (H : malformed_bbox StringToNumber (js "1,2,3"))
    by (left; vm_compute; discriminate).
  split; [exact H |].
  exact (proj1 (proj2 (@malformed_bbox_ignored StringToNumber (js "public.buildings")
                         Sample.empty_store None None (js "1,2,3") H))).
Defined.

(** C8, at the failing inputs, [/buildings] over a table with one building
    at (10, 10).  A repeated parameter, [?bbox=1,2&bbox=3,4], reaches the
    handler as an array, which has no [split]: the request is rejected with
    status 500 and no statement is sent.  A [bbox] with blank parts passes
    the guard, since [Number] reads a blank as 0: [?bbox=1,,3,4] binds
    1, 0, 3, 4 and [?bbox=,,,] binds four zeros to an envelope clause, and
    the first is answered with no feature where the request without [bbox]
    gets the building. *)
Theorem malformed_bbox_rejected_or_applied :
  statement StringToNumber (js "public.buildings") Sample.bbox_twice
  = inl (js "req.query.bbox.split is not a function")
  /\ get_buildings StringToNumber Sample.one_building Sample.bbox_twice
     = {| status := 500; cache_control := None;
          body := JObj [ (js "error",
                          JStr (js "req.query.bbox.split is not a function")) ] |}
  /\ statement StringToNumber (js "public.buildings") (Sample.bbox_only "1,,3,4")
     = inr ({| Sql.table := js "public.buildings";
               Sql.whereSQL :=
                 js "WHERE ST_Intersects(geom, ST_MakeEnvelope($1, $2, $3, $4, 4326))";
               Sql.limit := Finite 1000 |},
            [Num (Finite 1); Num (Finite 0); Num (Finite 3); Num (Finite 4)])
  /\ statement StringToNumber (js "public.buildings") (Sample.bbox_only ",,,")
     = inr ({| Sql.table := js "public.buildings";
               Sql.whereSQL :=
                 js "WHERE ST_Intersects(geom, ST_MakeEnvelope($1, $2, $3, $4, 4326))";
               Sql.limit := Finite 1000 |},
            [Num (Finite 0); Num (Finite 0); Num (Finite 0); Num (Finite 0)])
  /\ get_buildings StringToNumber Sample.one_building (Sample.bbox_only "1,,3,4")
     = {| status := 200; cache_control := Some (js "no-store");
          body := empty_collection |}
  /\ get_buildings StringToNumber Sample.one_building Sample.no_parameter
     = {| status := 200; cache_control := Some (js "no-store");
          body := JObj [ (js "type", JStr (js "FeatureCollection"));
                         (js "features", JArr [feature_of_row Sample.hall]) ] |}.
Proof. repeat split. Qed.



(** *** Empty results *)

(** When the store accepts the row count, a request that matches nothing is
    answered with the empty collection. *)
Lemma no_match_gives_empty_collection
  (Number : jsstring -> number) (table : jsstring) (db : database) (req : Req.t) n :
  pg_limit (limit_of Number req) = inr n ->
  matches_nothing Number table db req ->
  handle Number table db req
  = {| status := 200; cache_control := Some (js "no-store");
       body := empty_collection |}.
Proof.
  unfold matches_nothing, handle, pool_query.
  destruct (build Number table req) as [sql params] eqn:Eb; simpl.
  assert (Sql.limit sql = limit_of Number req) as ->.
  { unfold build in Eb. destruct (filters Number req).
    injection Eb as <- _; reflexivity. }
  intros -> ->.
  rewrite firstn_nil; reflexivity.
Qed.

(** C7, at the failing input: [/buildings?limit=-1] over an empty table.
    Nothing matches, yet the row count -1 is refused by the store and the
    answer is the error object with status 500. *)
Theorem empty_match_with_negative_limit :
  matches_nothing StringToNumber (js "public.buildings") Sample.empty_store
    (Sample.request (Some "-1") None None)%string
  /\ buildings StringToNumber Sample.empty_store
       (Sample.request (Some "-1") None None)%string
     = {| status := 500; cache_control := None;
          body := JObj [ (js "error", JStr (js "LIMIT must not be negative")) ] |}.
Proof.
  split; reflexivity.
Qed.

(** The same table asked without a limit: the empty collection, status 200. *)
Lemma empty_table_gives_empty_collection :
  buildings StringToNumber Sample.empty_store (Sample.request None None None)
  = {| status := 200; cache_control := Some (js "no-store");
       body := JObj [ (js "type", JStr (js "FeatureCollection"));
                      (js "features", JArr []) ] |}.
Proof.
  apply (@no_match_gives_empty_collection StringToNumber _ _ _ 1000);
    reflexivity.
Qed.

End ServerFacts.

(* ================================================================== *)
(** ** Further properties of the browser script                       *)
(* ================================================================== *)

Module ClientExtra.
Import JS JSFacts Client ClientFacts.

(** *** The selection map *)

Lemma has_In (m : selection) lid :
  has m lid = true <-> In lid (map fst m).
Proof.
  unfold has; rewrite existsb_exists, in_map_iff; split.
  - intros (p & Hp & E); apply N.eqb_eq in E; eauto.
  - intros (p & E & Hp); exists p; split; [assumption | now apply N.eqb_eq].
Qed.

Lemma has_not_In (m : selection) lid :
  has m lid = false <-> ~ In lid (map fst m).
Proof.
  rewrite <- has_In; destruct (has m lid); split; congruence.
Qed.

Lemma delete_absent (m : selection) lid :
  has m lid = false -> delete m lid = m.
Proof.
  induction m as [| [k v] m IH]; simpl; [reflexivity |].
  destruct (N.eqb k lid); simpl; [discriminate |].
  intros H; now rewrite IH.
Qed.

Lemma has_delete (m : selection) lid k :
  has (delete m lid) k = has m k && negb (N.eqb k lid).
Proof.
  induction m as [| [k' v] m IH]; simpl; [reflexivity |].
  destruct (N.eqb k' lid) eqn:E1; simpl.
  - rewrite IH. apply N.eqb_eq in E1; subst k'.
    destruct (N.eqb lid k) eqn:E2; simpl; [| reflexivity].
    apply N.eqb_eq in E2; subst k.
    rewrite N.eqb_refl; simpl. now rewrite andb_false_r.
  - rewrite IH. destruct (N.eqb k' k) eqn:E2; simpl; [| reflexivity].
    apply N.eqb_eq in E2; subst k'. now rewrite E1.
Qed.

(** X1.  Clicking a layer twice.  The set of selected identities is the one
    before the two clicks.  If the layer was not selected, the whole state is
    as before; if it was, its entry has moved to the end of the selection,
    and so to the last row of the table and of the exports. *)
Theorem toggle_twice (l : Layer.t) (st : state) :
  let lid := Layer._leaflet_id l in
  let st2 := toggleSelect l (toggleSelect l st) in
  (forall k, has (selected st2) k = has (selected st) k)
  /\ (has (selected st) lid = false -> st2 = st)
  /\ (has (selected st) lid = true ->
      selected st2 = delete (selected st) lid ++ [(lid, entry_of l)]).
Proof.
  intros lid st2; subst st2; unfold toggleSelect; fold lid.
  destruct (has (selected st) lid) eqn:E; simpl.
  - assert (Hd : has (delete (selected st) lid) lid = false)
      by (rewrite has_delete, N.eqb_refl; apply andb_false_r).
    rewrite Hd; simpl. rewrite set_absent by exact Hd.
    split; [| split; [discriminate | reflexivity]].
    intros k; rewrite has_app, has_delete; simpl.
    destruct (N.eqb lid k) eqn:Ek; simpl.
    + apply N.eqb_eq in Ek; subst k. rewrite E. apply orb_true_r.
    + rewrite N.eqb_sym, Ek; simpl. now rewrite andb_true_r, orb_false_r.
  - rewrite set_absent by exact E; simpl.
    assert (Hh : has (selected st ++ [(lid, entry_of l)]) lid = true)
      by (rewrite has_app; simpl; rewrite N.eqb_refl; apply orb_true_r).
    rewrite Hh; simpl.
    assert (Hback : delete (selected st ++ [(lid, entry_of l)]) lid = selected st).
    { unfold delete; rewrite filter_app; simpl.
      rewrite N.eqb_refl; simpl. rewrite app_nil_r. now apply delete_absent. }
    rewrite Hback.
    split; [reflexivity | split; [| discriminate]].
    intros _; clear; destruct st; reflexivity.
Qed.

(** *** Sweeps over the layers *)

Lemma fold_left_agree (f g : state -> Layer.t -> state) ls : forall s,
  (forall s' l, f s' l = g s' l) -> fold_left f ls s = fold_left g ls s.
Proof.
  induction ls as [| l ls IH]; intros s H; simpl; [reflexivity |].
  rewrite H; now apply IH.
Qed.

Lemma select_all_as_visits st :
  select_all st
  = fold_left (fun s l => if true then selectLayer l s else s) (layers st) st.
Proof. reflexivity. Qed.

Section Sweep.

Variable pick : Layer.t -> bool.

Let sweep (ls : list Layer.t) (s : state) : state :=
  fold_left (fun s l => if pick l then selectLayer l s else s) ls s.

Lemma sweep_extends ls : forall s,
  layers (sweep ls s) = layers s
  /\ allPropertyKeys (sweep ls s) = allPropertyKeys s
  /\ exists added,
       selected (sweep ls s) = selected s ++ added
       /\ Forall (fun p => exists l, In l ls /\ pick l = true
                                     /\ p = (Layer._leaflet_id l, entry_of l))
                 added.
Proof.
  unfold sweep; induction ls as [| l ls IH]; intros s; simpl.
  - repeat split; exists []; split; [now rewrite app_nil_r | constructor].
  - destruct (IH (if pick l then selectLayer l s else s)) as (H1 & H2 & a2 & H3 & H4).
    assert (Hweak :
      Forall (fun p => exists l0, (l = l0 \/ In l0 ls) /\ pick l0 = true
                                  /\ p = (Layer._leaflet_id l0, entry_of l0)) a2).
    { eapply Forall_impl; [| exact H4]. intros p (l0 & Hin & Hp & ->); eauto. }
    destruct (pick l) eqn:Hpick.
    + destruct (selectLayer_spec l s) as [[_ E] | [_ E]]; rewrite E in *; simpl in *.
      * rewrite H1, H2; repeat split. exists a2; split; assumption.
      * rewrite H1, H2; repeat split.
        exists ((Layer._leaflet_id l, entry_of l) :: a2); split.
        -- rewrite H3, <- app_assoc; reflexivity.
        -- constructor; [eauto | assumption].
    + rewrite H1, H2; repeat split. exists a2; split; assumption.
Qed.

Lemma sweep_keeps_has ls s lid :
  has (selected s) lid = true -> has (selected (sweep ls s)) lid = true.
Proof.
  intros H; destruct (sweep_extends ls s) as (_ & _ & added & -> & _).
  rewrite has_app, H; reflexivity.
Qed.

Lemma sweep_covers ls : forall s l,
  In l ls -> pick l = true ->
  has (selected (sweep ls s)) (Layer._leaflet_id l) = true.
Proof.
  induction ls as [| x ls IH]; intros s l Hin Hp; simpl in *; [contradiction |].
  destruct Hin as [-> | Hin].
  - rewrite Hp. apply (sweep_keeps_has ls). apply selectLayer_has.
  - now apply IH.
Qed.

Lemma sweep_fixed ls : forall s,
  (forall l, In l ls -> pick l = true ->
             has (selected s) (Layer._leaflet_id l) = true) ->
  sweep ls s = s.
Proof.
  unfold sweep; induction ls as [| x ls IH]; intros s H; simpl; [reflexivity |].
  assert (E : (if pick x then selectLayer x s else s) = s).
  { destruct (pick x) eqn:Hp; [| reflexivity].
    destruct (selectLayer_spec x s) as [[_ ->] | [Hn _]]; [reflexivity |].
    rewrite (H x (or_introl eq_refl) Hp) in Hn; discriminate Hn. }
  rewrite E. apply IH. intros l Hl; apply H; now right.
Qed.

(** A sweep over layers with distinct ids, none of them selected yet, files
    the picked ones in the order of the sweep. *)
Lemma sweep_fresh ls : forall s,
  NoDup (map Layer._leaflet_id ls) ->
  (forall l, In l ls -> has (selected s) (Layer._leaflet_id l) = false) ->
  selected (sweep ls s)
  = selected s ++ map (fun l => (Layer._leaflet_id l, entry_of l)) (filter pick ls).
Proof.
  unfold sweep; induction ls as [| x ls IH]; intros s Hnd Hnew; simpl.
  - now rewrite app_nil_r.
  - inversion Hnd as [| ? ? Hx Hnd']; subst.
    destruct (pick x) eqn:Hp.
    + destruct (selectLayer_spec x s) as [[Hh _] | [_ E]].
      { rewrite (Hnew x (or_introl eq_refl)) in Hh; discriminate Hh. }
      rewrite E, IH; simpl; [now rewrite <- app_assoc | assumption |].
      intros l Hl; rewrite has_app, (Hnew l (or_intror Hl)); simpl.
      destruct (N.eqb (Layer._leaflet_id x) (Layer._leaflet_id l)) eqn:Ei; [| reflexivity].
      apply N.eqb_eq in Ei. exfalso; apply Hx; rewrite Ei. now apply in_map.
    + apply IH; [assumption |]. intros l Hl; apply Hnew; now right.
Qed.

(** A sweep over layers of the group keeps the selection well kept. *)
Lemma sweep_well_kept ls : forall s,
  (forall l, In l ls -> In l (layers s)) ->
  well_kept s -> well_kept (sweep ls s).
Proof.
  unfold sweep; induction ls as [| x ls IH]; intros s Hin Hwk; simpl; [assumption |].
  assert (Hstep : well_kept (if pick x then selectLayer x s else s)
                  /\ layers (if pick x then selectLayer x s else s) = layers s).
  { destruct (pick x); [| now split].
    destruct (selectLayer_spec x s) as [[_ ->] | [Hn ->]]; [now split |].
    split; [| reflexivity].
    destruct Hwk as [Hnd Hent]; split; simpl.
    - rewrite map_app; simpl. apply NoDup_app; [assumption | repeat constructor; simpl; tauto |].
      intros a Ha [<- | []]. now apply has_not_In in Hn.
    - intros lid e Hi; apply in_app_iff in Hi as [Hi | [Hi | []]].
      + now apply Hent.
      + injection Hi as <- <-; simpl. repeat split. apply Hin; now left. }
  destruct Hstep as [Hwk' Hl'].
  apply IH; [| assumption].
  intros l Hl; rewrite Hl'; apply Hin; now right.
Qed.

End Sweep.

Lemma rectangle_select_as_sweep r st :
  rectangle_select r st
  = fold_left (fun s l => if picked r l then selectLayer l s else s)
              (reached (layers st)) st.
Proof. apply rectangle_select_fold. Qed.

Lemma reached_all ls :
  Forall (fun l => Layer.geometry l <> getBounds_empty) ls -> reached ls = ls.
Proof.
  induction 1 as [| l ls Hl _ IH]; simpl; [reflexivity |].
  rewrite IH. destruct (Layer.geometry l); congruence.
Qed.

Lemma visit_each_returns r ls : forall s,
  snd (visit_each r ls s) = Returned
  <-> Forall (fun l => Layer.geometry l <> getBounds_empty) ls.
Proof.
  induction ls as [| l ls IH]; intros s; cbn [visit_each].
  - split; [constructor | reflexivity].
  - destruct (Layer.geometry l) eqn:E;
      try (rewrite visit_visited by congruence; rewrite IH; split;
           [intros H; constructor; [congruence | exact H]
           | intros H; now inversion H]).
    unfold visit; rewrite E; simpl; split; [discriminate |].
    intros H; inversion H; congruence.
Qed.

(** X17.  A rectangle selection runs to its end exactly when no layer of
    the group has bounds without corners; otherwise it throws at the first
    such layer and the layers after it are not looked at.  Every layer it
    gets to and the rectangle picks (a marker inside the rectangle, bounds
    included; another shape whose bounding box overlaps it) ends selected:
    all picked layers of the group when the pass runs to its end.  Whatever
    is selected afterwards either was selected before or is a layer of the
    group that the rectangle picks. *)
Theorem rectangle_select_picks (r : LatLngBounds) (st : state) :
  (snd (draw_created r st) = Returned
   <-> Forall (fun l => Layer.geometry l <> getBounds_empty) (layers st))
  /\ (forall l, In l (reached (layers st)) -> picked r l = true ->
        has (selected (rectangle_select r st)) (Layer._leaflet_id l) = true)
  /\ (snd (draw_created r st) = Returned ->
      forall l, In l (layers st) -> picked r l = true ->
        has (selected (rectangle_select r st)) (Layer._leaflet_id l) = true)
  /\ (forall lid, has (selected (rectangle_select r st)) lid = true ->
        has (selected st) lid = true
        \/ exists l, In l (layers st) /\ picked r l = true
                     /\ Layer._leaflet_id l = lid).
Proof.
  assert (Hcover : forall l, In l (reached (layers st)) -> picked r l = true ->
            has (selected (rectangle_select r st)) (Layer._leaflet_id l) = true).
  { intros l Hin Hp. rewrite rectangle_select_as_sweep. now apply sweep_covers. }
  split; [apply visit_each_returns | split; [exact Hcover | split]].
  - intros Hret l Hin Hp. apply Hcover; [| assumption].
    apply visit_each_returns in Hret. now rewrite (reached_all Hret).
  - intros lid Hh. rewrite rectangle_select_as_sweep in Hh.
    destruct (sweep_extends (picked r) (reached (layers st)) st)
      as (_ & _ & added & Ha & Hf).
    rewrite Ha, has_app in Hh. apply orb_true_iff in Hh as [Hh | Hh]; [now left |].
    right. apply has_In, in_map_iff in Hh as (p & <- & Hp).
    rewrite Forall_forall in Hf. destruct (Hf p Hp) as (l & Hin & Hpick & ->).
    exists l; repeat split; [now apply reached_incl | assumption].
Qed.

(** A line without points ahead of a marker: the pass throws at the line,
    and the marker, which lies inside the rectangle, stays unselected. *)
Lemma rectangle_select_stops_at_empty_line :
  draw_created Sample.around_marker1 Sample.line_then_marker
  = (Sample.line_then_marker, Threw)
  /\ picked Sample.around_marker1 Sample.marker1 = true
  /\ In Sample.marker1 (layers Sample.line_then_marker)
  /\ selected (rectangle_select Sample.around_marker1 Sample.line_then_marker) = [].
Proof. repeat split. right; left; reflexivity. Qed.

(** X2.  Select-all leaves every layer of the group selected, keeps what
    was selected in place and in order, adds only entries of layers of the
    group, and pressed again changes nothing. *)
Theorem select_all_covers_group (st : state) :
  (forall l, In l (layers st) ->
             has (selected (select_all st)) (Layer._leaflet_id l) = true)
  /\ (exists added,
        selected (select_all st) = selected st ++ added
        /\ Forall (fun p => exists l, In l (layers st)
                                     /\ p = (Layer._leaflet_id l, entry_of l)) added)
  /\ select_all (select_all st) = select_all st.
Proof.
  rewrite !select_all_as_visits.
  destruct (sweep_extends (fun _ => true) (layers st) st) as (Hl & _ & added & Ha & Hf).
  split; [| split].
  2: { exists added; split; [exact Ha |].
       eapply Forall_impl; [| exact Hf]. intros p (l & Hin & _ & ->); eauto. }
  - intros l Hin; now apply (sweep_covers (fun _ => true)).
  - rewrite Hl. apply (sweep_fixed (fun _ => true)).
    intros l Hin _; now apply (sweep_covers (fun _ => true)).
Qed.

Lemma filter_all (A : Type) (l : list A) : filter (fun _ => true) l = l.
Proof. induction l as [| x l IH]; simpl; [reflexivity | now rewrite IH]. Qed.

(** X3.  Select-all right after a load that gave the layers distinct ids
    (Leaflet stamps each layer with a fresh one): the selection is the list
    of the added layers, in their order, each under its own id. *)
Theorem select_all_after_load
  (addData : json -> list Layer.t * outcome) (obj : json) (st0 : state) :
  NoDup (map Layer._leaflet_id (fst (addData obj))) ->
  selected (select_all (fst (loadGeoJSON addData obj st0)))
  = map (fun l => (Layer._leaflet_id l, entry_of l)) (fst (addData obj)).
Proof.
  intros Hnd.
  destruct (loadGeoJSON_clears addData obj st0) as (Hl & Hs & _).
  rewrite select_all_as_visits, Hl.
  rewrite (sweep_fresh (fun _ => true)); [| assumption |].
  - now rewrite Hs, filter_all.
  - intros l _; now rewrite Hs.
Qed.

(** The two cities: both markers, in order. *)
Lemma select_all_after_load_cities :
  selected Sample.cities_selected
  = [ (41%N, entry_of Sample.marker1); (42%N, entry_of Sample.marker2) ].
Proof.
  apply (@select_all_after_load
           (fun _ => ([Sample.marker1; Sample.marker2], Returned))
           Sample.cities Sample.fresh).
  repeat constructor; simpl; intuition discriminate.
Defined.

(** *** What a session keeps true *)

Lemma delete_well_kept st lid :
  well_kept st -> well_kept (with_selected st (delete (selected st) lid)).
Proof.
  intros [Hnd Hent]; split; simpl.
  - clear Hent; induction (selected st) as [| [k v] m IH]; simpl; [constructor |].
    simpl in Hnd; inversion Hnd as [| ? ? Hk Hm]; subst.
    destruct (N.eqb k lid); simpl; [now apply IH |].
    constructor; [| now apply IH].
    intros Hin; apply Hk.
    apply in_map_iff in Hin as (p & <- & Hp).
    apply filter_In in Hp as [Hp _]. now apply in_map.
  - intros k e Hin; apply filter_In in Hin as [Hin _]. now apply Hent.
Qed.

Lemma step_well_kept st a :
  (forall l, a = Click l -> In l (layers st)) ->
  well_kept st -> well_kept (step st a).
Proof.
  intros Hclick Hwk; destruct a as [l | | | | r]; simpl.
  - unfold toggleSelect.
    destruct (has (selected st) (Layer._leaflet_id l)) eqn:E.
    + now apply delete_well_kept.
    + pose proof (@sweep_well_kept (fun _ => true) [l] st) as H; simpl in H.
      unfold selectLayer in H; rewrite E in H; simpl in H.
      apply H; [| assumption].
      intros l' [<- | []]; now apply Hclick.
  - rewrite select_all_as_visits. now apply (sweep_well_kept (fun _ => true)).
  - split; simpl; [constructor | intros ? ? []].
  - split; simpl; [constructor | intros ? ? []].
  - rewrite rectangle_select_as_sweep. apply sweep_well_kept; [| assumption].
    intros l Hl; now apply reached_incl.
Qed.

Lemma run_well_kept acts : forall st,
  (forall l, In (Click l) acts -> In l (layers st)) ->
  well_kept st -> well_kept (run acts st).
Proof.
  unfold run; induction acts as [| a acts IH]; intros st Hclick Hwk; simpl; [assumption |].
  apply IH.
  - intros l Hl. destruct (step_keeps st a) as [-> _]. apply Hclick; now right.
  - apply step_well_kept; [| assumption].
    intros l ->; apply Hclick; now left.
Qed.

(** X4.  Through any sequence of clicks on layers of the loaded group,
    select-all, deselect-all, clear and rectangle selections, the selection
    never holds an identity twice, and each entry is filed under the id of
    its own layer, carries that layer's feature, and belongs to the group
    now loaded. *)
Theorem session_selection_well_kept
  (addData : json -> list Layer.t * outcome) (obj : json) (st0 : state)
  (acts : list action) :
  (forall l, In (Click l) acts -> In l (fst (addData obj))) ->
  well_kept (run acts (fst (loadGeoJSON addData obj st0))).
Proof.
  intros Hclick.
  destruct (loadGeoJSON_clears addData obj st0) as (Hl & Hs & _).
  apply run_well_kept.
  - now rewrite Hl.
  - split; rewrite Hs; simpl; [constructor | intros ? ? []].
Qed.

(** A session on the two cities: a click, select-all, another click. *)
Lemma session_selection_well_kept_cities :
  well_kept (run [Click Sample.marker1; SelectAll; Click Sample.marker2]
                 Sample.cities_loaded).
Proof.
  apply (@session_selection_well_kept
           (fun _ => ([Sample.marker1; Sample.marker2], Returned))
           Sample.cities Sample.fresh
           [Click Sample.marker1; SelectAll; Click Sample.marker2]).
  intros l [H | [H | [H | []]]]; try discriminate H;
    injection H as <-; simpl; auto.
Defined.

(** *** What the table shows *)

Lemma decode_entities_other c rest :
  (c =? 38)%N = false -> decode_entities (c :: rest) = c :: decode_entities rest.
Proof. intros H; simpl; now rewrite H. Qed.

Lemma decode_entities_written t :
  decode_entities (js "&amp;" ++ t) = 38%N :: decode_entities t
  /\ decode_entities (js "&lt;" ++ t) = 60%N :: decode_entities t
  /\ decode_entities (js "&gt;" ++ t) = 62%N :: decode_entities t
  /\ decode_entities (js "&quot;" ++ t) = 34%N :: decode_entities t.
Proof. repeat split. Qed.

Lemma escapeHtml_cons c s : escapeHtml (c :: s) = escapeHtml [c] ++ escapeHtml s.
Proof. unfold escapeHtml; simpl; now rewrite app_nil_r. Qed.

Lemma decode_escapeHtml (s : jsstring) :
  decode_entities (escapeHtml s) = s.
Proof.
  induction s as [| c s IH]; [reflexivity |].
  rewrite escapeHtml_cons.
  destruct (decode_entities_written (escapeHtml s)) as (Ha & Hl & Hg & Hq).
  unfold escapeHtml at 1; simpl; rewrite app_nil_r.
  destruct (c =? 38)%N eqn:E1; [apply N.eqb_eq in E1; subst; now rewrite Ha, IH |].
  destruct (c =? 60)%N eqn:E2; [apply N.eqb_eq in E2; subst; now rewrite Hl, IH |].
  destruct (c =? 62)%N eqn:E3; [apply N.eqb_eq in E3; subst; now rewrite Hg, IH |].
  destruct (c =? 34)%N eqn:E4; [apply N.eqb_eq in E4; subst; now rewrite Hq, IH |].
  change ([c] ++ escapeHtml s) with (c :: escapeHtml s).
  rewrite decode_entities_other by assumption. now rewrite IH.
Qed.

(** X5.  Escaped text holds no angle bracket and no double quote, and
    reading its entities back gives the text that was escaped: a cell shows
    its text as it is, whatever it holds, and never opens a tag. *)
Theorem escapeHtml_reads_back (s : jsstring) :
  decode_entities (escapeHtml s) = s
  /\ Forall (fun c => c <> 60%N /\ c <> 62%N /\ c <> 34%N) (escapeHtml s).
Proof. split; [apply decode_escapeHtml | apply escapeHtml_safe]. Qed.

Lemma digits_have_no_tag d : ~ In 60%N (js (NilEmpty.string_of_uint d)).
Proof.
  induction d; simpl; intuition discriminate.
Qed.

Lemma decimal_has_no_tag i : ~ In 60%N (decimal i).
Proof.
  unfold decimal, NilZero.string_of_uint.
  destruct (Nat.to_uint i) eqn:E; try (rewrite <- E; apply digits_have_no_tag).
  intros [H | []]; discriminate H.
Qed.

Lemma escapeHtml_has_no_tag s : ~ In 60%N (escapeHtml s).
Proof.
  intros H. pose proof (escapeHtml_safe s) as Hs.
  rewrite Forall_forall in Hs. destruct (Hs _ H) as [Hne _]. now apply Hne.
Qed.

Lemma td_cells_text t : forall text rest,
  ~ In 60%N t ->
  td_cells (Some text) (t ++ 60%N :: rest) = (text ++ t) :: td_cells None rest.
Proof.
  induction t as [| c t IH]; intros text rest Hn.
  - simpl; now rewrite app_nil_r.
  - simpl in Hn. cbn [app td_cells].
    destruct (c =? 60)%N eqn:E; [apply N.eqb_eq in E; subst; tauto |].
    rewrite IH by tauto. now rewrite <- app_assoc.
Qed.

Lemma td_cells_next rest :
  td_cells None (js "/td>" ++ js "<td>" ++ rest) = td_cells (Some []) rest
  /\ td_cells None (js "<tr><td>" ++ rest) = td_cells (Some []) rest
  /\ td_cells None (js "/td>" ++ js "</tr>") = [].
Proof. repeat split. Qed.

Lemma td_cells_row (cells : list jsstring) :
  Forall (fun t => ~ In 60%N t) cells ->
  td_cells None
    (js "/td>" ++ concat (map (fun t => js "<td>" ++ t ++ js "</td>") cells)
       ++ js "</tr>")
  = cells.
Proof.
  induction 1 as [| t cells Ht _ IH].
  - reflexivity.
  - cbn [map concat]. rewrite <- !app_assoc.
    destruct (td_cells_next
                (t ++ js "</td>"
                   ++ concat (map (fun t => js "<td>" ++ t ++ js "</td>") cells)
                   ++ js "</tr>")) as (-> & _).
    change (js "</td>" ++ ?x) with (60%N :: js "/td>" ++ x).
    rewrite td_cells_text by assumption. now rewrite IH.
Qed.

Lemma body_row_reads_back keys i e :
  td_cells None (body_row keys i e)
  = decimal i
    :: map (fun k => escapeHtml (cell_text (props_of (Entry.feature e)) k)) keys.
Proof.
  rewrite body_row_cells, <- !app_assoc.
  destruct (td_cells_next
              (decimal i ++ js "</td>"
                 ++ concat (map (fun k => js "<td>"
                                            ++ escapeHtml (cell_text (props_of (Entry.feature e)) k)
                                            ++ js "</td>") keys)
                 ++ js "</tr>")) as (_ & -> & _).
  change (js "</td>" ++ ?x) with (60%N :: js "/td>" ++ x).
  rewrite td_cells_text by apply decimal_has_no_tag.
  simpl app. f_equal.
  rewrite <- (map_map (fun k => escapeHtml (cell_text (props_of (Entry.feature e)) k))
                      (fun t => js "<td>" ++ t ++ js "</td>")).
  apply td_cells_row.
  apply Forall_forall; intros t Hin.
  apply in_map_iff in Hin as (k & <- & _). apply escapeHtml_has_no_tag.
Qed.

Lemma body_rows_read_back keys (m : selection) : forall i,
  map (td_cells None) (body_rows keys i m)
  = map (fun p => decimal (fst p)
                    :: map (fun k => escapeHtml
                                       (cell_text (props_of (Entry.feature (snd (snd p)))) k))
                           keys)
        (combine (seq i (length m)) m).
Proof.
  induction m as [| [lid e] m IH]; intros i; [reflexivity |].
  cbn [body_rows map length seq combine fst snd].
  now rewrite body_row_reads_back, IH.
Qed.

(** On a plain lookup the cell is the text of the property. *)
Lemma cell_text_plain feature k :
  plain_lookup (props_of feature) k = true ->
  cell_text (props_of feature) k = property_text feature k.
Proof.
  unfold plain_lookup, cell_text, property_text.
  destruct (props_of feature); try discriminate; reflexivity.
Qed.

Lemma plain_cells_spec keys (m : selection) :
  plain_cells keys m = true ->
  forall p, In p m ->
    map (cell_text (props_of (Entry.feature (snd p)))) keys
    = map (property_text (Entry.feature (snd p))) keys.
Proof.
  unfold plain_cells; intros H p Hp.
  rewrite forallb_forall in H. specialize (H p Hp). rewrite forallb_forall in H.
  apply map_ext_in; intros k Hk. now apply cell_text_plain, H.
Qed.

Lemma body_cells_read_back (st : state) :
  let keys := table_keys st in
  let rows := body (updateAttributeTable st) in
  map (td_cells None) rows
  = map (fun p => decimal (fst p)
                    :: map (fun k => escapeHtml
                                       (cell_text (props_of (Entry.feature (snd (snd p)))) k))
                           keys)
        (combine (seq 1 (length (selected st))) (selected st))
  /\ map (fun row => map decode_entities (tl (td_cells None row))) rows
     = map (fun p => map (cell_text (props_of (Entry.feature (snd p)))) keys)
           (selected st)
  /\ Forall (fun row => length (td_cells None row) = length keys + 1) rows.
Proof.
  intros keys rows; subst rows; unfold updateAttributeTable; fold keys; cbn [body].
  pose proof (body_rows_read_back keys (selected st) 1) as H.
  split; [exact H | split].
  - rewrite <- (map_map (td_cells None) (fun cells => map decode_entities (tl cells))), H.
    rewrite map_map. cbn [tl]. clear H.
    generalize 1; induction (selected st) as [| [lid e] m IH]; intros i; [reflexivity |].
    cbn [length seq combine map fst snd]. rewrite IH. f_equal.
    rewrite map_map. apply map_ext; intros k. apply decode_escapeHtml.
  - apply Forall_forall; intros row Hin.
    apply (in_map (td_cells None)) in Hin.
    rewrite (body_rows_read_back keys (selected st) 1) in Hin.
    apply in_map_iff in Hin as (p & <- & _).
    cbn [length]. rewrite length_map. lia.
Qed.

(** X16.  When every cell is a plain lookup (the properties of each
    selected feature are a plain object, and each key of the table is an
    entry of it with a printable value or a name no object inherits), each
    body row of the attribute table has one cell more than the table has
    keys: first the row number, counting from 1 in selection order, then one
    cell per key; and read with its entities decoded, the cell of a key is
    the text of that property, empty when the feature has no such entry. *)
Theorem table_rows_read_back (st : state) :
  plain_cells (table_keys st) (selected st) = true ->
  map (td_cells None) (body (updateAttributeTable st))
  = map (fun p => decimal (fst p)
                    :: map (fun k => escapeHtml
                                       (property_text (Entry.feature (snd (snd p))) k))
                           (table_keys st))
        (combine (seq 1 (length (selected st))) (selected st))
  /\ map (fun row => map decode_entities (tl (td_cells None row)))
         (body (updateAttributeTable st))
     = map (fun p => map (property_text (Entry.feature (snd p))) (table_keys st))
           (selected st)
  /\ Forall (fun row => length (td_cells None row) = length (table_keys st) + 1)
            (body (updateAttributeTable st)).
Proof.
  intros Hplain.
  destruct (body_cells_read_back st) as (H1 & H2 & H3).
  cbv zeta in H1, H2, H3.
  pose proof (plain_cells_spec _ _ Hplain) as Hp.
  split; [| split; [| exact H3]].
  - rewrite H1. apply map_ext_in; intros [i [lid e]] Hin. f_equal.
    apply in_combine_r in Hin.
    rewrite <- (map_map (cell_text (props_of (Entry.feature (snd (lid, e))))) escapeHtml).
    rewrite (Hp _ Hin). now rewrite map_map.
  - rewrite H2. apply map_ext_in; intros q Hin. now apply Hp.
Qed.

(** The table of the two selected cities. *)
Lemma table_rows_read_back_cities :
  map (fun row => map decode_entities (tl (td_cells None row)))
      (body (updateAttributeTable Sample.cities_selected))
  = [ [js "1"; js "X"]; [js "2"; js "Y"] ].
Proof.
  exact (proj1 (proj2 (@table_rows_read_back Sample.cities_selected eq_refl))).
Defined.

(** *** What the CSV file gives back *)

Lemma csv_read_quoted_body v : forall field record tail,
  csv_read Quoted field record
    (flat_map (fun c => if (c =? 34)%N then [34%N; 34%N] else [c]) v ++ 34%N :: tail)
  = csv_read QuoteSeen (field ++ v) record tail.
Proof.
  induction v as [| c v IH]; intros field record tail.
  - simpl; now rewrite app_nil_r.
  - cbn [flat_map]. destruct (c =? 34)%N eqn:E.
    + apply N.eqb_eq in E; subst c.
      cbn -[flat_map]. rewrite IH. now rewrite <- app_assoc.
    + cbn -[flat_map]. rewrite E, IH. now rewrite <- app_assoc.
Qed.

Lemma csv_read_quote v record tail :
  csv_read Plain [] record (csv_quote v ++ tail) = csv_read QuoteSeen v record tail.
Proof.
  unfold csv_quote. rewrite <- !app_assoc. cbn -[flat_map].
  apply (csv_read_quoted_body v []).
Qed.

Lemma csv_read_after_quote field record :
  csv_read QuoteSeen field record [] = [record ++ [field]]
  /\ (forall more, csv_read QuoteSeen field record (10%N :: more)
                    = (record ++ [field]) :: csv_read Plain [] [] more)
  /\ (forall more, csv_read QuoteSeen field record (44%N :: more)
                    = csv_read Plain [] (record ++ [field]) more).
Proof. repeat split. Qed.

(** A line of quoted fields is read as those fields, up to its end. *)
Lemma csv_read_quoted_line vs : forall record tail,
  vs <> [] ->
  csv_read Plain [] record (join (js ",") (map csv_quote vs) ++ tail)
  = csv_read QuoteSeen (last vs []) (record ++ removelast vs) tail.
Proof.
  induction vs as [| v [| w rest] IH]; intros record tail Hne; [congruence | |].
  - simpl. rewrite app_nil_r. apply csv_read_quote.
  - change (join (js ",") (map csv_quote (v :: w :: rest)))
      with (csv_quote v ++ 44%N :: join (js ",") (map csv_quote (w :: rest))).
    rewrite <- app_assoc, csv_read_quote.
    rewrite <- app_comm_cons.
    destruct (csv_read_after_quote v record) as (_ & _ & ->).
    rewrite IH by discriminate.
    change (removelast (v :: w :: rest)) with (v :: removelast (w :: rest)).
    change (last (v :: w :: rest) []) with (last (w :: rest) []).
    now rewrite <- app_assoc.
Qed.

Lemma csv_read_plain k : forall field record tail,
  header_safe k ->
  csv_read Plain field record (k ++ tail) = csv_read Plain (field ++ k) record tail.
Proof.
  induction k as [| c k IH]; intros field record tail (Hq & Hc & Hn).
  - simpl; now rewrite app_nil_r.
  - simpl in Hq, Hc, Hn. cbn.
    destruct (c =? 44)%N eqn:E1; [apply N.eqb_eq in E1; subst; tauto |].
    destruct (c =? 10)%N eqn:E2; [apply N.eqb_eq in E2; subst; tauto |].
    destruct (c =? 34)%N eqn:E3; [apply N.eqb_eq in E3; subst; tauto |].
    simpl. rewrite IH by (repeat split; tauto). now rewrite <- app_assoc.
Qed.

Lemma csv_read_plain_line keys : forall record tail,
  keys <> [] -> Forall header_safe keys ->
  csv_read Plain [] record (join (js ",") keys ++ tail)
  = csv_read Plain (last keys []) (record ++ removelast keys) tail.
Proof.
  induction keys as [| k [| k' rest] IH]; intros record tail Hne Hs; [congruence | |].
  - simpl. rewrite app_nil_r. inversion Hs; subst.
    now rewrite csv_read_plain.
  - change (join (js ",") (k :: k' :: rest))
      with (k ++ 44%N :: join (js ",") (k' :: rest)).
    inversion Hs as [| ? ? Hk Hs']; subst.
    rewrite <- app_assoc, csv_read_plain by assumption.
    rewrite <- app_comm_cons. cbn [csv_read app].
    change ((44 =? 44)%N) with true. cbv iota.
    rewrite IH by (assumption || discriminate).
    change (removelast (k :: k' :: rest)) with (k :: removelast (k' :: rest)).
    change (last (k :: k' :: rest) []) with (last (k' :: rest) []).
    now rewrite <- app_assoc.
Qed.

Lemma csv_read_plain_end field record :
  csv_read Plain field record [] = [record ++ [field]]
  /\ (forall more, csv_read Plain field record (10%N :: more)
                    = (record ++ [field]) :: csv_read Plain [] [] more).
Proof. repeat split. Qed.

Lemma rejoin (vs : list jsstring) : vs <> [] -> removelast vs ++ [last vs []] = vs.
Proof. intros H; symmetry; now apply app_removelast_last. Qed.

(** The data lines, joined by line feeds, are read as the rows of cell
    texts. *)
Lemma csv_read_data_lines (rows : list (list jsstring)) :
  rows <> [] -> Forall (fun vs => vs <> []) rows ->
  csv_records (join [10%N] (map (fun vs => join (js ",") (map csv_quote vs)) rows))
  = rows.
Proof.
  unfold csv_records.
  induction rows as [| vs [| ws rest] IH]; intros Hne Hall; [congruence | |].
  - inversion Hall as [| ? ? Hvs _]; subst. simpl.
    rewrite <- (app_nil_r (join _ _)), csv_read_quoted_line by assumption.
    destruct (csv_read_after_quote (last vs []) ([] ++ removelast vs)) as (-> & _).
    simpl; now rewrite rejoin.
  - inversion Hall as [| ? ? Hvs Hall']; subst.
    change (join [10%N] (map (fun vs => join (js ",") (map csv_quote vs)) (vs :: ws :: rest)))
      with (join (js ",") (map csv_quote vs)
              ++ 10%N :: join [10%N] (map (fun vs => join (js ",") (map csv_quote vs))
                                      (ws :: rest))).
    rewrite csv_read_quoted_line by assumption.
    destruct (csv_read_after_quote (last vs []) ([] ++ removelast vs)) as (_ & -> & _).
    rewrite IH by (assumption || discriminate).
    simpl; now rewrite rejoin.
Qed.

Lemma csv_cells_read_back (st : state) :
  selected st <> [] ->
  allPropertyKeys st <> [] ->
  Forall header_safe (allPropertyKeys st) ->
  exists text,
    export_csv st = Some text
    /\ csv_records text
       = allPropertyKeys st
         :: map (fun p => map (cell_text (props_of (Entry.feature (snd p))))
                              (allPropertyKeys st))
                (selected st).
Proof.
  intros Hsel Hkeys Hsafe.
  set (keys := allPropertyKeys st) in *.
  set (rows := map (fun p => map (cell_text (props_of (Entry.feature (snd p)))) keys)
                   (selected st)).
  assert (Hrows : map (fun p => csv_row keys (snd p)) (selected st)
                  = map (fun vs => join (js ",") (map csv_quote vs)) rows).
  { unfold rows; rewrite map_map. apply map_ext; intros p.
    unfold csv_row; now rewrite map_map. }
  assert (Hne : rows <> []) by (unfold rows; destruct (selected st); [congruence | discriminate]).
  assert (Hall : Forall (fun vs => vs <> []) rows).
  { unfold rows; apply Forall_forall; intros vs Hin.
    apply in_map_iff in Hin as (p & <- & _).
    destruct keys; [congruence | discriminate]. }
  exists (join [10%N] (join (js ",") keys
                         :: map (fun vs => join (js ",") (map csv_quote vs)) rows)).
  split.
  - assert (Hexp : export_csv_rows st
                   = Some (join (js ",") keys
                             :: map (fun p => csv_row keys (snd p)) (selected st))).
    { unfold export_csv_rows; fold keys. clear - Hsel.
      destruct (selected st); [congruence | reflexivity]. }
    unfold export_csv; rewrite Hexp; simpl option_map. now rewrite Hrows.
  - destruct rows as [| r rs] eqn:Er; [congruence |].
    change (join [10%N] (join (js ",") keys
                           :: map (fun vs => join (js ",") (map csv_quote vs)) (r :: rs)))
      with (join (js ",") keys
              ++ 10%N :: join [10%N] (map (fun vs => join (js ",") (map csv_quote vs))
                                      (r :: rs))).
    unfold csv_records.
    rewrite csv_read_plain_line by assumption.
    destruct (csv_read_plain_end (last keys []) ([] ++ removelast keys)) as (_ & ->).
    simpl app. rewrite rejoin by assumption.
    f_equal. now apply csv_read_data_lines.
Qed.

(** The two cities: the header and two rows come back. *)
(** X6.  With something selected, a non-empty key union whose keys hold
    no double quote, comma or line feed, and every cell a plain lookup (the
    properties of each selected feature are a plain object, and each key is
    an entry of it with a printable value or a name no object inherits), a
    CSV reader gets back from the exported file the keys as first record and
    then, for each selected feature in order, the texts of its properties
    exactly, whatever quotes, commas or line feeds the values hold, and the
    empty text for a property the feature has no entry for. *)
Theorem csv_export_reads_back (st : state) :
  selected st <> [] ->
  allPropertyKeys st <> [] ->
  Forall header_safe (allPropertyKeys st) ->
  plain_cells (allPropertyKeys st) (selected st) = true ->
  exists text,
    export_csv st = Some text
    /\ csv_records text
       = allPropertyKeys st
         :: map (fun p => map (property_text (Entry.feature (snd p)))
                              (allPropertyKeys st))
                (selected st).
Proof.
  intros Hsel Hkeys Hsafe Hplain.
  destruct (@csv_cells_read_back st Hsel Hkeys Hsafe) as (text & Ht & Hr).
  exists text; split; [exact Ht |].
  rewrite Hr. f_equal.
  apply map_ext_in; intros p Hp. now apply (plain_cells_spec _ _ Hplain).
Qed.

Lemma csv_export_reads_back_cities :
  exists text,
    export_csv Sample.cities_selected = Some text
    /\ csv_records text
       = [ [js "id"; js "city"]; [js "1"; js "X"]; [js "2"; js "Y"] ].
Proof.
  apply (@csv_export_reads_back Sample.cities_selected);
    try discriminate; [| reflexivity].
  repeat constructor; simpl; intuition discriminate.
Defined.

(** *** Exporting and loading again *)

(** The key scan over exported features never throws and collects what the
    table's fallback collects. *)
Lemma scan_exported (m : selection) : forall keys,
  scan_features (map (fun p => JObj (Entry.feature (snd p))) m) keys
  = (selection_keys m keys, Returned).
Proof.
  induction m as [| [lid e] m IH]; intros keys; [reflexivity |].
  cbn [map scan_features snd]. rewrite IH. unfold selection_keys; cbn [fold_left snd].
  do 2 f_equal. unfold props_of, get.
  destruct (assoc (js "properties") (Entry.feature e)) as [v |]; [| reflexivity].
  destruct (truthy (Some v)); reflexivity.
Qed.

Lemma decimal_positive n : n <> 0 -> str_eqb (decimal n) (js "0") = false.
Proof.
  intros Hn; apply str_eqb_neq; intros H; now apply decimal_zero in H.
Qed.

(** X7.  With something selected, the GeoJSON export is a FeatureCollection
    object holding the features of the selected entries in selection order.
    Loading that object again (when Leaflet accepts it) completes without
    error, with nothing selected, and its key union is what the keys of the
    selected features give, in selection order. *)
Theorem export_geojson_loads_again (st : state) :
  selected st <> [] ->
  exists fc,
    export_geojson st = Some fc
    /\ is_feature_collection fc = true
    /\ features_of fc = map (fun p => JObj (Entry.feature (snd p))) (selected st)
    /\ forall (addData : json -> list Layer.t * outcome) (st0 : state),
         snd (addData fc) = Returned ->
         loadGeoJSON addData fc st0
         = ({| layers := fst (addData fc);
               selected := [];
               allPropertyKeys := selection_keys (selected st) [] |}, Returned).
Proof.
  intros Hsel.
  set (fs := map (fun p => JObj (Entry.feature (snd p))) (selected st)).
  exists (JObj [ (js "type", JStr (js "FeatureCollection")); (js "features", JArr fs) ]).
  split; [| split; [reflexivity | split; [reflexivity |]]].
  - unfold export_geojson. clear - Hsel.
    destruct (selected st); [congruence | reflexivity].
  - intros addData st0 Hret. unfold loadGeoJSON.
    destruct (addData _) as [added o]; simpl in Hret; subst o.
    change (get (JObj [ (js "type", JStr (js "FeatureCollection")); (js "features", JArr fs) ])
                (js "features")) with (Some (JArr fs)).
    cbv beta iota.
    assert (Hcond :
      truthy (Some (JArr fs)) && truthy (get (JArr fs) (js "length")) = true).
    { change (negb (str_eqb (decimal (length fs)) (js "0")) = true).
      rewrite decimal_positive; [reflexivity |].
      unfold fs; rewrite length_map. clear - Hsel.
      destruct (selected st); [congruence | discriminate]. }
    rewrite Hcond. unfold fs. now rewrite scan_exported.
Qed.

(** The two cities exported and loaded again: the same two keys. *)
Lemma export_geojson_loads_again_cities :
  exists fc,
    export_geojson Sample.cities_selected = Some fc
    /\ is_feature_collection fc = true
    /\ features_of fc = [JObj Sample.f1; JObj Sample.f2]
    /\ forall (addData : json -> list Layer.t * outcome) (st0 : state),
         snd (addData fc) = Returned ->
         loadGeoJSON addData fc st0
         = ({| layers := fst (addData fc);
               selected := [];
               allPropertyKeys := [js "id"; js "city"] |}, Returned).
Proof.
  apply (@export_geojson_loads_again Sample.cities_selected); discriminate.
Defined.

(** *** Searching the table *)

Lemma starts_with_spec q : forall s,
  starts_with q s = true <-> exists post, s = q ++ post.
Proof.
  induction q as [| c q IH]; intros s; simpl.
  - split; [intros _; now exists s | reflexivity].
  - destruct s as [| d s].
    + split; [discriminate | intros (post & H); discriminate H].
    + rewrite andb_true_iff, N.eqb_eq, IH; split.
      * intros (-> & post & ->); now exists post.
      * intros (post & H); injection H as -> ->; split; eauto.
Qed.

Lemma occurs_in_cons q c s :
  starts_with q (c :: s) = false ->
  (occurs_in q (c :: s) <-> occurs_in q s).
Proof.
  intros Hn; split.
  - intros (pre & post & E). destruct pre as [| d pre].
    + rewrite (proj2 (starts_with_spec q (c :: s))) in Hn; [discriminate | eauto].
    + injection E as _ ->. now exists pre, post.
  - intros (pre & post & ->). now exists (c :: pre), post.
Qed.

(** [indexOf] is at least zero exactly when the text holds the query. *)
Lemma indexOf_from_spec q s : forall i,
  (0 <= i)%Z ->
  (occurs_in q s /\ (i <= indexOf_from i s q)%Z)
  \/ (~ occurs_in q s /\ indexOf_from i s q = (-1)%Z).
Proof.
  induction s as [| c s IH]; intros i Hi; simpl.
  - destruct (starts_with q []) eqn:E.
    + left; split; [| lia].
      apply starts_with_spec in E as (post & E). now exists [], post.
    + right; split; [| reflexivity].
      intros (pre & post & H). destruct pre; [| discriminate H].
      rewrite (proj2 (starts_with_spec q [])) in E; [discriminate | eauto].
  - destruct (starts_with q (c :: s)) eqn:E.
    + left; split; [| lia].
      apply starts_with_spec in E as (post & E). now exists [], post.
    + destruct (IH (i + 1)%Z ltac:(lia)) as [[Ho Hle] | [Hno He]].
      * left; split; [now apply occurs_in_cons | lia].
      * right; split; [| assumption]. now rewrite occurs_in_cons.
Qed.

(** X8.  The search box shows a row exactly when the lower-cased, trimmed
    query occurs in the row's lower-cased text, and hides it otherwise; a
    query that is empty or white space only shows every row (given that the
    empty string lower-cases to itself). *)
Theorem table_search_shows_matches
  (toLowerCase : jsstring -> jsstring) (value : jsstring)
  (textContents : list jsstring) :
  let q := toLowerCase (trim value) in
  Forall2 (fun textContent display =>
             (occurs_in q (toLowerCase textContent) /\ display = [])
             \/ (~ occurs_in q (toLowerCase textContent) /\ display = js "none"))
          textContents (table_search toLowerCase value textContents)
  /\ (toLowerCase [] = [] -> Forall (fun c => is_ws c = true) value ->
      Forall (fun display => display = [])
             (table_search toLowerCase value textContents)).
Proof.
  intros q; split.
  - unfold table_search; fold q.
    induction textContents as [| t ts IH]; simpl; constructor; [| exact IH].
    unfold indexOf.
    destruct (@indexOf_from_spec q (toLowerCase t) 0%Z ltac:(lia)) as [[Ho Hle] | [Hno He]].
    + left; split; [assumption |].
      apply Z.leb_le in Hle; now rewrite Hle.
    + right; split; [assumption |]. now rewrite He.
  - intros Hempty Hws. unfold table_search.
    rewrite (trim_all_ws Hws), Hempty.
    apply Forall_forall; intros d Hin.
    apply in_map_iff in Hin as (t & <- & _).
    unfold indexOf.
    destruct (@indexOf_from_spec [] (toLowerCase t) 0%Z ltac:(lia)) as [[_ Hle] | [Hno _]].
    + apply Z.leb_le in Hle; now rewrite Hle.
    + exfalso; apply Hno. now exists [], (toLowerCase t).
Qed.

End ClientExtra.

(* ================================================================== *)
(** ** Further properties of the service                              *)
(* ================================================================== *)

Module ServerExtra.
Import JS JSFacts Server ServerFacts.

(** *** Trimming *)

Lemma trim_start_split s :
  exists p, s = p ++ trim_start s /\ Forall (fun c => is_ws c = true) p.
Proof.
  induction s as [| c s (p & E & Hp)]; simpl.
  - exists []; split; [reflexivity | constructor].
  - destruct (is_ws c) eqn:Hc.
    + exists (c :: p); split; [simpl; now f_equal | now constructor].
    + exists []; split; [reflexivity | constructor].
Qed.

Lemma trim_start_head s c r : trim_start s = c :: r -> is_ws c = false.
Proof.
  induction s as [| d s IH]; simpl; [discriminate |].
  destruct (is_ws d) eqn:Hd; [exact IH |].
  intros H; injection H as <- _; exact Hd.
Qed.

Lemma trim_start_fixed s :
  (forall c r, s = c :: r -> is_ws c = false) -> trim_start s = s.
Proof.
  destruct s as [| c r]; intros H; simpl; [reflexivity |].
  now rewrite (H c r eq_refl).
Qed.

(** What [trim] returns neither starts nor ends with white space. *)
Lemma trim_clean s :
  (forall c r, trim s = c :: r -> is_ws c = false)
  /\ (forall r c, trim s = r ++ [c] -> is_ws c = false).
Proof.
  unfold trim; split.
  - intros c r H.
    destruct (trim_start_split (rev (trim_start s))) as (p & E & _).
    apply (f_equal (@rev N)) in E; rewrite rev_involutive, rev_app_distr, H in E.
    simpl in E. now apply trim_start_head in E.
  - intros r c H.
    apply (f_equal (@rev N)) in H; rewrite rev_involutive, rev_app_distr in H.
    simpl in H. now apply trim_start_head in H.
Qed.

Lemma trim_fixed s :
  (forall c r, s = c :: r -> is_ws c = false) ->
  (forall r c, s = r ++ [c] -> is_ws c = false) ->
  trim s = s.
Proof.
  intros Hh Hl; unfold trim.
  rewrite (trim_start_fixed Hh), trim_start_fixed, rev_involutive; [reflexivity |].
  intros c r E. apply (Hl (rev r) c).
  rewrite <- (rev_involutive s), E; reflexivity.
Qed.

Lemma trim_idempotent s : trim (trim s) = trim s.
Proof.
  destruct (trim_clean s) as [Hh Hl]. now apply trim_fixed.
Qed.

(** *** CORS *)

(** X9.  The list of allowed origins holds only non-empty entries without
    surrounding white space, and none at all when ALLOWED_ORIGINS is unset
    or empty.  A request without Origin header (or with an empty one) is
    always let through; one with an Origin is let through exactly when the
    Origin is, unit for unit, the trimmed text of a comma-separated part of
    ALLOWED_ORIGINS, and is refused with a message naming it otherwise. *)
Theorem cors_allows_listed_origins (ALLOWED_ORIGINS : option jsstring) :
  let parts := split 44 (match ALLOWED_ORIGINS with Some s => s | None => [] end) in
  let allowed := allowedOrigins ALLOWED_ORIGINS in
  Forall (fun o => o <> [] /\ trim o = o) allowed
  /\ allowedOrigins None = [] /\ allowedOrigins (Some []) = []
  /\ cors_origin allowed None = Allowed
  /\ cors_origin allowed (Some []) = Allowed
  /\ (forall o : jsstring, o <> [] ->
        (cors_origin allowed (Some o) = Allowed
         <-> exists part, In part parts /\ trim part = o)
        /\ (cors_origin allowed (Some o) = Allowed
            \/ cors_origin allowed (Some o)
               = Refused (js "CORS not allowed for origin: " ++ o))).
Proof.
  intros parts allowed.
  assert (Hin : forall o : jsstring,
            In o allowed <-> o <> [] /\ exists part, In part parts /\ trim part = o).
  { intros o; unfold allowed, allowedOrigins; fold parts.
    rewrite filter_In, in_map_iff, negb_true_iff, str_eqb_neq.
    split.
    - intros [(part & E & Hp) Hne]; eauto.
    - intros [Hne (part & Hp & E)]; eauto. }
  split; [| repeat split].
  - apply Forall_forall; intros o Ho.
    apply Hin in Ho as (Hne & part & _ & <-).
    split; [assumption | apply trim_idempotent].
  - unfold cors_origin. apply str_eqb_neq in H; rewrite H.
    destruct (includes allowed o) eqn:E; [| discriminate].
    intros _. apply includes_In, Hin in E. tauto.
  - intros Hex. unfold cors_origin.
    pose proof H as H'. apply str_eqb_neq in H'; rewrite H'.
    rewrite (proj2 (includes_In allowed o)); [reflexivity |].
    apply Hin; split; assumption.
  - unfold cors_origin. apply str_eqb_neq in H; rewrite H.
    destruct (includes allowed o); auto.
Qed.

(** *** What the builder can produce *)

Section Builder.

Variable Number : jsstring -> number.

Lemma filters_shapes (req : Req.t) :
  let clean (t : jsstring) := t <> [] /\ trim t = t in
  let finite4 (a b c d : number) :=
    Number_isFinite a = true /\ Number_isFinite b = true
    /\ Number_isFinite c = true /\ Number_isFinite d = true in
  filters Number req = ([], [])
  \/ (exists t, clean t /\ filters Number req = ([ilike_clause 0], [Text t]))
  \/ (exists a b c d, finite4 a b c d
        /\ filters Number req
           = ([envelope_clause 0], [Num a; Num b; Num c; Num d]))
  \/ (exists t a b c d, clean t /\ finite4 a b c d
        /\ filters Number req
           = ([ilike_clause 0; envelope_clause 1],
              [Text t; Num a; Num b; Num c; Num d])).
Proof.
  intros clean finite4.
  assert (Hq : q_of req = None \/ q_of req = Some []
               \/ exists t, clean t /\ q_of req = Some t).
  { unfold q_of. destruct (Req.q req) as [s |]; [| now left].
    destruct (str_eqb s []); [now left |].
    destruct (trim s) as [| c r] eqn:E; [right; now left |].
    right; right; exists (trim s); split; [| now rewrite E].
    split; [rewrite E; discriminate | apply trim_idempotent]. }
  assert (Hb : forall st1 : list jsstring * list bound * nat,
            match bbox_of Number req with
            | Some bbox =>
                if (length bbox =? 4) && forallb Number_isFinite bbox
                then let '(where_, params, i) := st1 in
                     (where_ ++ [envelope_clause i],
                      params ++ [Num (nth 0 bbox NaN); Num (nth 1 bbox NaN);
                                 Num (nth 2 bbox NaN); Num (nth 3 bbox NaN)],
                      i + 4)
                else st1
            | None => st1
            end = st1
            \/ exists a b c d, finite4 a b c d
                 /\ match bbox_of Number req with
                    | Some bbox =>
                        if (length bbox =? 4) && forallb Number_isFinite bbox
                        then let '(where_, params, i) := st1 in
                             (where_ ++ [envelope_clause i],
                              params ++ [Num (nth 0 bbox NaN); Num (nth 1 bbox NaN);
                                         Num (nth 2 bbox NaN); Num (nth 3 bbox NaN)],
                              i + 4)
                        else st1
                    | None => st1
                    end
                    = (let '(where_, params, i) := st1 in
                       (where_ ++ [envelope_clause i],
                        params ++ [Num a; Num b; Num c; Num d], i + 4))).
  { intros st1. destruct (bbox_of Number req) as [bbox |]; [| now left].
    destruct ((length bbox =? 4) && forallb Number_isFinite bbox) eqn:E; [| now left].
    apply andb_true_iff in E as [Hlen Hfin]. apply Nat.eqb_eq in Hlen.
    destruct bbox as [| a [| b [| c [| d [| ? ?]]]]]; try discriminate Hlen.
    simpl in Hfin. repeat (apply andb_true_iff in Hfin as [? Hfin]).
    right; exists a, b, c, d; split; [repeat split; assumption | reflexivity]. }
  unfold filters.
  destruct Hq as [-> | [-> | (t & Hclean & ->)]].
  - destruct (Hb ([], [], 0)) as [-> | (a & b & c & d & Hf & ->)];
      [now left | right; right; left; exists a, b, c, d; now split].
  - simpl negb. cbv iota.
    destruct (Hb ([], [], 0)) as [-> | (a & b & c & d & Hf & ->)];
      [now left | right; right; left; exists a, b, c, d; now split].
  - assert (Ht : negb (str_eqb t []) = true)
      by (apply negb_true_iff, str_eqb_neq, Hclean).
    rewrite Ht.
    destruct (Hb ([] ++ [ilike_clause 0], [] ++ [Text t], 0 + 1))
      as [-> | (a & b & c & d & Hf & ->)].
    + right; left; exists t; now split.
    + right; right; right; exists t, a, b, c, d.
      split; [assumption | split; [assumption | reflexivity]].
Qed.

(** X10.  Whatever the request, the builder ends in one of four states, and
    in each the bound values are exactly those the placeholders $1..$n of
    the clauses refer to, in order: nothing; the name clause on $1 with a
    text that is not empty and has no surrounding white space; the envelope
    clause on $1..$4 with four finite numbers; or the name clause on $1 and
    the envelope clause on $2..$5 with the text followed by the numbers. *)
Theorem placeholders_match_bound_values (req : Req.t) :
  let clean (t : jsstring) := t <> [] /\ trim t = t in
  let finite4 (a b c d : number) :=
    Number_isFinite a = true /\ Number_isFinite b = true
    /\ Number_isFinite c = true /\ Number_isFinite d = true in
  filters Number req = ([], [])
  \/ (exists t, clean t /\ filters Number req = ([ilike_clause 0], [Text t]))
  \/ (exists a b c d, finite4 a b c d
        /\ filters Number req
           = ([envelope_clause 0], [Num a; Num b; Num c; Num d]))
  \/ (exists t a b c d, clean t /\ finite4 a b c d
        /\ filters Number req
           = ([ilike_clause 0; envelope_clause 1],
              [Text t; Num a; Num b; Num c; Num d])).
Proof. exact (filters_shapes req). Qed.

(** X11.  The WHERE text is one of four fixed texts: which one depends only
    on which filters are in force, never on what [q] or [bbox] hold. *)
Theorem where_text_is_fixed (table : jsstring) (req : Req.t) :
  In (Sql.whereSQL (fst (build Number table req)))
     [ [];
       js "WHERE name ILIKE '%' || $1 || '%'";
       js "WHERE ST_Intersects(geom, ST_MakeEnvelope($1, $2, $3, $4, 4326))";
       js "WHERE name ILIKE '%' || $1 || '%' AND ST_Intersects(geom, ST_MakeEnvelope($2, $3, $4, $5, 4326))" ].
Proof.
  unfold build.
  destruct (filters_shapes req)
    as [-> | [(t & _ & ->) | [(a & b & c & d & _ & ->) | (t & a & b & c & d & _ & _ & ->)]]];
    simpl; auto.
Qed.

(** X12.  A [bbox] of four parts that all convert to finite numbers adds the
    envelope clause on the next four placeholders and binds the four numbers
    in the order given (minX, minY, maxX, maxY), after whatever [q] bound. *)
Theorem wellformed_bbox_is_bound
  (limit q : option jsstring) (s a b c d : jsstring) :
  split 44 s = [a; b; c; d] ->
  Number_isFinite (Number a) = true -> Number_isFinite (Number b) = true ->
  Number_isFinite (Number c) = true -> Number_isFinite (Number d) = true ->
  let without := filters Number {| Req.limit := limit; Req.q := q; Req.bbox := None |} in
  filters Number {| Req.limit := limit; Req.q := q; Req.bbox := Some s |}
  = (fst without ++ [envelope_clause (length (snd without))],
     snd without ++ [Num (Number a); Num (Number b); Num (Number c); Num (Number d)]).
Proof.
  intros Hs Ha Hb Hc Hd without; subst without.
  unfold filters, bbox_of; cbv beta iota delta [Req.bbox].
  assert (Hne : str_eqb s [] = false).
  { apply str_eqb_neq; intros ->; discriminate Hs. }
  rewrite Hne, Hs; simpl map; simpl length; simpl forallb.
  rewrite Ha, Hb, Hc, Hd; simpl.
  destruct (q_of _) as [t |]; [| reflexivity].
  destruct (negb (str_eqb t [])); reflexivity.
Qed.

(** X13.  A [q] with something besides white space binds its trimmed text
    to $1 in the name clause, ahead of the values of [bbox], whose clause
    then starts at $2. *)
Theorem nonblank_q_is_bound (limit bbox : option jsstring) (s : jsstring) :
  trim s <> [] ->
  let without := filters Number {| Req.limit := limit; Req.q := None; Req.bbox := bbox |} in
  filters Number {| Req.limit := limit; Req.q := Some s; Req.bbox := bbox |}
  = (ilike_clause 0 :: match fst without with
                       | [] => []
                       | _ => [envelope_clause 1]
                       end,
     Text (trim s) :: snd without).
Proof.
  intros Ht without; subst without.
  unfold filters, q_of; cbv beta iota delta [Req.q].
  assert (Hs : str_eqb s [] = false).
  { apply str_eqb_neq; intros ->; now apply Ht. }
  rewrite Hs. apply str_eqb_neq in Ht; rewrite Ht; simpl negb; cbv iota.
  destruct (bbox_of Number _) as [bb |]; [| reflexivity].
  destruct ((length bb =? 4) && forallb Number_isFinite bb); reflexivity.
Qed.

End Builder.

(** The documented request [bbox=0,0,10,10]: one envelope clause on $1..$4
    with the numbers 0, 0, 10, 10. *)
Lemma wellformed_bbox_is_bound_example :
  filters StringToNumber (Sample.request (Some "5") None (Some "0,0,10,10"))%string
  = ([envelope_clause 0],
     [Num (Finite 0); Num (Finite 0); Num (Finite 10); Num (Finite 10)]).
Proof.
  exact (@wellformed_bbox_is_bound StringToNumber (Some (js "5")) None
           (js "0,0,10,10") (js "0") (js "0") (js "10") (js "10")
           eq_refl eq_refl eq_refl eq_refl eq_refl).
Defined.

(** [q= Main St ] with a bbox: the text [Main St] on $1, the envelope on
    $2..$5. *)
Lemma nonblank_q_is_bound_example :
  filters StringToNumber (Sample.request None (Some " Main St ") (Some "0,0,10,10"))%string
  = ([ilike_clause 0; envelope_clause 1],
     [Text (js "Main St");
      Num (Finite 0); Num (Finite 0); Num (Finite 10); Num (Finite 10)]).
Proof.
  apply (@nonblank_q_is_bound StringToNumber None (Some (js "0,0,10,10")) (js " Main St ")).
  discriminate.
Defined.

(** *** The row limit *)

(** X18.  Whatever [limit] holds, the LIMIT of the query is a number (never
    NaN) of at most 10000; it is 1000 when the parameter is absent, does not
    convert to a number, or converts to zero. *)
Theorem limit_is_capped_with_default (Number : jsstring -> number) (req : Req.t) :
  num_leb (limit_of Number req) (Finite 10000) = true
  /\ limit_of Number req <> NaN
  /\ (Req.limit req = None -> limit_of Number req = Finite 1000)
  /\ (forall s, Req.limit req = Some s -> Number s = NaN ->
                limit_of Number req = Finite 1000)
  /\ (forall s q, Req.limit req = Some s -> Number s = Finite q ->
                  Qeq_bool q 0 = true -> limit_of Number req = Finite 1000).
Proof.
  split; [| split; [| split; [| split]]].
  - destruct (limit_of_cases Number req) as [-> | [-> | [-> | (q & -> & H & _)]]];
      try reflexivity; exact H.
  - destruct (limit_of_cases Number req) as [-> | [-> | [-> | (q & -> & _)]]];
      discriminate.
  - unfold limit_of; now intros ->.
  - unfold limit_of; now intros s -> ->.
  - unfold limit_of, or_else; intros s q -> -> H; simpl; now rewrite H.
Qed.

(** *** What a response can be *)

Lemma round_half_away_capped q :
  Qle_bool q 10000 = true -> (round_half_away q <= 10000)%Z.
Proof.
  intros H; apply Qle_bool_iff in H.
  destruct q as [a d].
  change (a * 1 <= 10000 * Z.pos d)%Z in H.
  unfold round_half_away; cbn [Qnum Qden].
  destruct (0 <=? a)%Z eqn:E.
  - apply Z.lt_succ_r. apply Z.div_lt_upper_bound; lia.
  - apply Z.leb_gt in E.
    assert (0 <= (2 * - a + Z.pos d) / (2 * Z.pos d))%Z
      by (apply Z.div_pos; lia).
    lia.
Qed.

Lemma accepted_limit_capped (Number : jsstring -> number) req n :
  pg_limit (limit_of Number req) = inr n -> (Z.of_nat n <= 10000)%Z.
Proof.
  assert (Hq : forall q, Qle_bool q 10000 = true ->
                         pg_limit (Finite q) = inr n -> (Z.of_nat n <= 10000)%Z).
  { intros q Hle; unfold pg_limit.
    pose proof (round_half_away_capped q Hle) as Hr.
    destruct ((round_half_away q <? - 2 ^ 63) || (2 ^ 63 - 1 <? round_half_away q))%Z;
      [discriminate |].
    destruct (round_half_away q <? 0)%Z eqn:E; [discriminate |].
    apply Z.ltb_ge in E.
    intros H; injection H as <-. now rewrite Z2Nat.id. }
  destruct (limit_of_cases Number req) as [-> | [-> | [-> | (q & -> & Hle & _)]]].
  - now apply Hq.
  - now apply Hq.
  - discriminate.
  - now apply Hq.
Qed.

(** The pushes of a request of strings are those of its [q] and [bbox]. *)
Lemma pushes_filters (Number : jsstring -> number) req :
  filters Number req = pushes (q_of req) (bbox_of Number req).
Proof. reflexivity. Qed.

(** For a request of strings nothing is thrown, and the statement is the one
    [build] gives. *)
Lemma statement_build (Number : jsstring -> number) table req :
  statement Number table (of_req req) = inr (build Number table req).
Proof.
  unfold statement, build. rewrite pushes_filters.
  destruct req as [[l |] [q |] [b |]];
    cbv [limit_line q_line bbox_line of_req option_map q_of bbox_of limit_of
         Query.limit Query.q Query.bbox Req.limit Req.q Req.bbox];
    match goal with |- context [pushes ?a ?b] => destruct (pushes a b) end;
    reflexivity.
Qed.

(** With a database that fails nothing on its own, the handler answers a
    request of strings as [handle] says. *)
Lemma respond_handle (Number : jsstring -> number) table d req :
  respond Number table (reachable d) (of_req req) = handle Number table d req.
Proof.
  unfold respond, handle. rewrite statement_build.
  destruct (build Number table req) as [sql params].
  unfold query_pool, reachable; cbn [failure db].
  destruct (pool_query d sql params); reflexivity.
Qed.

(** What is thrown before a statement exists is one of the two TypeErrors. *)
Lemma statement_thrown (Number : jsstring -> number) table query message :
  statement Number table query = inl message ->
  message = conversion_error \/ message = split_error.
Proof.
  unfold statement, limit_line, q_line, bbox_line.
  destruct query as [[[l | [l |]] |] [[q | [q |]] |] [[b | [b |]] |]];
    cbn [Query.limit Query.q Query.bbox];
    try destruct (pushes _ _);
    intros H; try discriminate H; injection H as <-; auto.
Qed.

(** A statement the handler sends is one that some request of strings
    gives: an array or object that converts counts as its text. *)
Lemma statement_of_strings (Number : jsstring -> number) table query x :
  statement Number table query = inr x ->
  exists req, x = build Number table req.
Proof.
  unfold statement.
  destruct (limit_line Number query) as [m | limit] eqn:El; [discriminate |].
  destruct (q_line query) as [m | q] eqn:Eq; [discriminate |].
  destruct (bbox_line Number query) as [m | bbox] eqn:Eb; [discriminate |].
  assert (Hl : exists l, forall q' b',
             limit = limit_of Number {| Req.limit := l; Req.q := q'; Req.bbox := b' |}).
  { unfold limit_line in El.
    destruct (Query.limit query) as [[s | [t |]] |]; try discriminate El;
      injection El as <-.
    - exists (Some s); reflexivity.
    - exists (Some t); reflexivity.
    - exists None; reflexivity. }
  assert (Hq : exists s, forall l' b',
             q = q_of {| Req.limit := l'; Req.q := s; Req.bbox := b' |}).
  { unfold q_line in Eq.
    destruct (Query.q query) as [[s | [t |]] |]; try discriminate Eq;
      injection Eq as <-.
    - exists (Some s); reflexivity.
    - destruct t as [| c t].
      + exists (Some [32%N]); reflexivity.
      + exists (Some (c :: t)); reflexivity.
    - exists None; reflexivity. }
  assert (Hb : exists s, forall l' q',
             bbox = bbox_of Number {| Req.limit := l'; Req.q := q'; Req.bbox := s |}).
  { unfold bbox_line in Eb.
    destruct (Query.bbox query) as [[s | t] |]; try discriminate Eb;
      injection Eb as <-.
    - exists (Some s); reflexivity.
    - exists None; reflexivity. }
  destruct Hl as (l & Hl), Hq as (s & Hq), Hb as (b & Hb).
  intros H. exists {| Req.limit := l; Req.q := s; Req.bbox := b |}.
  unfold build. rewrite pushes_filters, <- (Hq l b), <- (Hb l s), <- (Hl s b).
  destruct (pushes q bbox); now injection H as <-.
Qed.

(** X14.  Every answer of /blocks and /buildings, whatever the parameters
    are (strings, arrays or objects) and whatever the pool does, is one of
    two.  Either nothing was thrown, the pool did not fail and the database
    took the row limit: then the answer is status 200 with the no-store
    directive and a FeatureCollection whose features are the first [n] rows
    that pass the filters, each turned into a Feature, for some [n] of at
    most 10000.  Or the answer is status 500, without the directive, with an
    error object carrying the message of what was thrown: one of the two
    TypeErrors of the parameter conversions, before any statement is sent, or
    else the failure of the pool or the database's refusal of the limit. *)
Theorem response_is_capped_collection_or_error
  (Number : jsstring -> number) (table : jsstring) (p : pool) (query : Query.t) :
  let r := respond Number table p query in
  (exists sql params n,
      statement Number table query = inr (sql, params)
      /\ failure p sql params = None
      /\ pg_limit (Sql.limit sql) = inr n
      /\ (Z.of_nat n <= 10000)%Z
      /\ r = {| status := 200; cache_control := Some (js "no-store");
                body := JObj [ (js "type", JStr (js "FeatureCollection"));
                               (js "features",
                                JArr (map feature_of_row
                                          (firstn n (matching_rows (db p) sql params)))) ] |})
  \/ (exists message,
        r = {| status := 500; cache_control := None;
               body := JObj [ (js "error", JStr message) ] |}
        /\ ((statement Number table query = inl message
             /\ (message = conversion_error \/ message = split_error))
            \/ exists sql params,
                 statement Number table query = inr (sql, params)
                 /\ (failure p sql params = Some message
                     \/ (failure p sql params = None
                         /\ pg_limit (Sql.limit sql) = inl message)))).
Proof.
  intros r; subst r. unfold respond.
  destruct (statement Number table query) as [message | [sql params]] eqn:Es.
  - right; exists message; split; [reflexivity | left; split; [reflexivity |]].
    now apply statement_thrown in Es.
  - unfold query_pool, pool_query.
    destruct (failure p sql params) as [message |] eqn:Ef.
    + right; exists message; split; [reflexivity |].
      right; exists sql, params; auto.
    + destruct (pg_limit (Sql.limit sql)) as [message | n] eqn:El.
      * right; exists message; split; [reflexivity |].
        right; exists sql, params; auto.
      * left; exists sql, params, n. repeat split; try assumption.
        -- destruct (statement_of_strings _ _ _ Es) as (req & Hreq).
           apply (@accepted_limit_capped Number req).
           replace (limit_of Number req) with (Sql.limit sql); [exact El |].
           unfold build in Hreq. destruct (filters Number req).
           now injection Hreq as -> _.
        -- f_equal.
           destruct (map feature_of_row (firstn n (matching_rows (db p) sql params)));
             reflexivity.
Qed.

(** X15.  When the store accepts the row limit and no row passes the
    filters, the answer is status 200 with the empty FeatureCollection. *)
Theorem accepted_no_match_is_empty_collection
  (Number : jsstring -> number) (table : jsstring) (db : database) (req : Req.t)
  (n : nat) :
  pg_limit (limit_of Number req) = inr n ->
  matches_nothing Number table db req ->
  handle Number table db req
  = {| status := 200; cache_control := Some (js "no-store");
       body := empty_collection |}.
Proof. apply no_match_gives_empty_collection. Qed.

(** [/blocks?q=zzz] against an empty table. *)
Lemma accepted_no_match_is_empty_collection_example :
  blocks StringToNumber Sample.empty_store (Sample.request None (Some "zzz") None)%string
  = {| status := 200; cache_control := Some (js "no-store");
       body := empty_collection |}.
Proof.
  apply (@accepted_no_match_is_empty_collection StringToNumber (js "public.blocks")
           Sample.empty_store (Sample.request None (Some "zzz") None)%string 1000);
    reflexivity.
Defined.

End ServerExtra.
